(** * Muvik rate extraction: orchestration core

    A shallow embedding of the JavaScript orchestration code of the
    repository (rate-limit helper of [MaerskCarrier], the login retry loop,
    the [extractMaerskRates] pipeline, the two entry points and the booking
    model), with the properties of its specification.

    Conventions.  [Date.now()] is an integer number of milliseconds, an
    element of [Z].  JavaScript strings are [string]s whose characters are
    read as code units below 256.  An [async] function is embedded as a
    sequential computation: every [await] in the sources is awaited to
    completion before the next statement runs. *)

From Stdlib Require Import ZArith List String Ascii Bool Lia.
From Stdlib Require Import DecimalString.
Import ListNotations.
Set Warnings "-register-all".
Local Open Scope string_scope.
Local Open Scope Z_scope.

(* ===================================================================== *)
(** ** JavaScript values, errors and completions *)
(* ===================================================================== *)

Module Js.

(** An [Error] object: only its [message] is ever read by the sources. *)
Record JsError : Type := mkError { message : string }.

(** How the evaluation of a statement ends: normally with a value, by a
    thrown error (which [try]/[catch] can intercept), or by
    [process.exit(code)], which nothing intercepts. *)
Inductive Completion (A : Type) : Type :=
| Normal (a : A)
| Throws (e : JsError)
| Exits (code : Z).
Arguments Normal {A} a.
Arguments Throws {A} e.
Arguments Exits {A} code.

(** [haystack.includes(needle)] *)
Fixpoint includes (needle haystack : string) : bool :=
  if String.prefix needle haystack then true
  else match haystack with
       | EmptyString => false
       | String _ rest => includes needle rest
       end.

(** Template-literal rendering of an integer. *)
Definition showZ (z : Z) : string := NilZero.string_of_int (Z.to_int z).

(** [Math.round(x / 1000)] on an integer [x]: the nearest integer, ties
    towards +infinity. *)
Definition roundDiv1000 (x : Z) : Z := (x + 500) / 1000.

(** [parts.join(sep)] *)
Fixpoint join (sep : string) (parts : list string) : string :=
  match parts with
  | [] => ""
  | [p] => p
  | p :: rest => p ++ sep ++ join sep rest
  end.

(** White space and line terminators removed by [String.prototype.trim]
    (the code units below 256: TAB, LF, VT, FF, CR, SP, NBSP). *)
Definition isTrimmable (c : ascii) : bool :=
  let n := nat_of_ascii c in
  (Nat.eqb n 9 || Nat.eqb n 10 || Nat.eqb n 11 || Nat.eqb n 12
   || Nat.eqb n 13 || Nat.eqb n 32 || Nat.eqb n 160)%bool.

Fixpoint trimStart (s : string) : string :=
  match s with
  | EmptyString => EmptyString
  | String c rest => if isTrimmable c then trimStart rest else s
  end.

(** Removes the trailing white space: a character is kept when it is not
    white space or when something is kept after it. *)
Fixpoint trimEnd (s : string) : string :=
  match s with
  | EmptyString => EmptyString
  | String c rest =>
      match trimEnd rest with
      | EmptyString => if isTrimmable c then EmptyString else String c EmptyString
      | kept => String c kept
      end
  end.

Definition trim (s : string) : string := trimEnd (trimStart s).

(** Truthiness of a string: only the empty string is falsy. *)
Definition truthyString (s : string) : bool :=
  match s with EmptyString => false | _ => true end.

(** Truthiness of [process.env.NAME]: unset or empty is falsy. *)
Definition truthyOpt (o : option string) : bool :=
  match o with Some s => truthyString s | None => false end.

(** *** Values that reach [JSON.stringify] *)

Inductive JsVal : Type :=
| VUndefined
| VNull
| VBool (b : bool)
| VNum (n : Z)
| VStr (s : string)
| VArr (items : list JsVal)
| VObj (fields : list (string * JsVal)).

Fixpoint lookupField (name : string) (fields : list (string * JsVal)) : JsVal :=
  match fields with
  | [] => VUndefined
  | (k, v) :: rest => if String.eqb k name then v else lookupField name rest
  end.

(** The value denoted by the text [JSON.stringify(v, null, 2)]: members
    whose value is [undefined] are left out of objects, and [undefined]
    array elements are written as [null]. *)
Fixpoint jsonOf (v : JsVal) : JsVal :=
  match v with
  | VArr items =>
      VArr (map (fun x => match x with
                          | VUndefined => VNull
                          | _ => jsonOf x
                          end) items)
  | VObj fields =>
      VObj ((fix members (fs : list (string * JsVal)) : list (string * JsVal) :=
               match fs with
               | [] => []
               | (k, x) :: rest =>
                   match x with
                   | VUndefined => members rest
                   | _ => (k, jsonOf x) :: members rest
                   end
               end) fields)
  | _ => v
  end.

(** Member of a JSON document, [None] when the key is absent. *)
Fixpoint member (name : string) (fields : list (string * JsVal)) : option JsVal :=
  match fields with
  | [] => None
  | (k, v) :: rest => if String.eqb k name then Some v else member name rest
  end.

Definition docMember (name : string) (doc : JsVal) : option JsVal :=
  match doc with
  | VObj fields => member name fields
  | _ => None
  end.

(** *** Effects: a state, and the three ways a statement completes *)

(** What a call into an external collaborator does: return or throw. *)
Inductive Outcome (A : Type) : Type :=
| Returns (a : A)
| Raises (e : JsError).
Arguments Returns {A} a.
Arguments Raises {A} e.

Definition Eff (S A : Type) : Type := S -> Completion A * S.

Definition ret {S A} (a : A) : Eff S A := fun s => (Normal a, s).
Definition throw {S A} (e : JsError) : Eff S A := fun s => (Throws e, s).
(** [process.exit(code)] *)
Definition processExit {S A} (code : Z) : Eff S A := fun s => (Exits code, s).

Definition bind {S A B} (c : Eff S A) (k : A -> Eff S B) : Eff S B :=
  fun s =>
    match c s with
    | (Normal a, s') => k a s'
    | (Throws e, s') => (Throws e, s')
    | (Exits n, s') => (Exits n, s')
    end.

Definition getState {S} : Eff S S := fun s => (Normal s, s).
Definition modifyState {S} (f : S -> S) : Eff S unit := fun s => (Normal tt, f s).

(** [try { body } catch (error) { handler }] *)
Definition tryCatch {S A} (body : Eff S A) (handler : JsError -> Eff S A) : Eff S A :=
  fun s =>
    match body s with
    | (Throws e, s') => handler e s'
    | other => other
    end.

(** [try { body } catch (error) { handler } finally { finalizer }]: the
    finalizer runs after the body or the handler however they complete,
    except when the process has exited; when the finalizer completes
    normally the completion of the body or handler stands. *)
Definition tryCatchFinally {S A} (body : Eff S A) (handler : JsError -> Eff S A)
    (finalizer : Eff S unit) : Eff S A :=
  fun s =>
    match tryCatch body handler s with
    | (Exits n, s') => (Exits n, s')
    | (r, s') =>
        match finalizer s' with
        | (Normal _, s'') => (r, s'')
        | (Throws e, s'') => (Throws e, s'')
        | (Exits n, s'') => (Exits n, s'')
        end
    end.

Notation "x <- c ;; k" := (bind c (fun x => k))
  (at level 61, c at next level, right associativity).
Notation "c ;; k" := (bind c (fun _ => k))
  (at level 61, right associativity).

End Js.
Import Js.

(* ===================================================================== *)
(** ** The rate-limit helper of [MaerskCarrier] *)
(* ===================================================================== *)

Module RateLimit.

(** The two fields of the carrier that the helper reads and writes. *)
Record Carrier : Type := mkCarrier {
  lastClaudeCall : Z;
  claudeRateLimit : Z
}.

(** The constructor: [lastClaudeCall = 0], [claudeRateLimit = 60000]. *)
Definition newCarrier : Carrier :=
  {| lastClaudeCall := 0; claudeRateLimit := 60000 |}.

(** What the external agent answers to one [execute]/[run] call. *)
Inductive AgentReply : Type :=
| Replied (resultMessage : string)
| Failed (e : JsError).

Definition Agent : Type := string -> AgentReply.

(** Observable actions of the helper, in program order. *)
Inductive Event : Type :=
| EvWarning (text : string)
| EvAssignLastClaudeCall (value : Z)
| EvAgentCall (taskDescription : string).

(** The object the helper returns. *)
Record CallResult : Type := mkCallResult {
  resultMessage : string;
  rateLimited : bool
}.

Record Machine : Type := mkMachine {
  this : Carrier;
  trace : list Event
}.

Definition M (A : Type) : Type := Eff Machine A.

Definition emit (e : Event) : M unit :=
  fun m => (Normal tt, {| this := this m; trace := trace m ++ [e] |}).

Definition readThis : M Carrier := m <- getState ;; ret (this m).

(** [this.lastClaudeCall = v] *)
Definition assignLastClaudeCall (v : Z) : M unit :=
  fun m =>
    (Normal tt,
     {| this := {| lastClaudeCall := v;
                   claudeRateLimit := claudeRateLimit (this m) |};
        trace := trace m ++ [EvAssignLastClaudeCall v] |}).

(** [await this.agent.execute(task)] / [await this.agent.run(task)] *)
Definition callAgent (agent : Agent) (task : string) : M string :=
  emit (EvAgentCall task) ;;
  match agent task with
  | Replied msg => ret msg
  | Failed e => throw e
  end.

(** The test of the [catch] block: [error.message.includes('429') ||
    error.message.includes('rate_limit')]. *)
Definition hasRateLimitSignature (e : JsError) : bool :=
  (includes "429" (message e) || includes "rate_limit" (message e))%bool.

Definition rateLimitWarning (who : string) (waitTime : Z) : string :=
  "Rate limiting " ++ who ++ " call, would need to wait "
    ++ showZ (roundDiv1000 waitTime) ++ "s".

(** [_claudeCallWithRateLimit(taskDescription, fallbackMessage)]; [now] is
    the value [Date.now()] returns on entry. *)
Definition _claudeCallWithRateLimit (agent : Agent) (now : Z)
    (taskDescription fallbackMessage : string) : M CallResult :=
  c <- readThis ;;
  let timeSinceLastCall := now - lastClaudeCall c in
  if timeSinceLastCall <? claudeRateLimit c then
    let waitTime := claudeRateLimit c - timeSinceLastCall in
    emit (EvWarning (rateLimitWarning "Claude" waitTime)) ;;
    ret {| resultMessage := fallbackMessage; rateLimited := true |}
  else
    tryCatch
      (assignLastClaudeCall now ;;
       msg <- callAgent agent taskDescription ;;
       ret {| resultMessage := msg; rateLimited := false |})
      (fun error =>
         if hasRateLimitSignature error then
           emit (EvWarning "Claude rate limit hit, backing off") ;;
           c' <- readThis ;;
           assignLastClaudeCall (now + claudeRateLimit c') ;;
           ret {| resultMessage := fallbackMessage; rateLimited := true |}
         else throw error).

(** [_agentCallWithRateLimit(taskDescription, fallbackMessage)] of the
    Browser Use carrier: the same control flow around [agent.run], with a
    fixed success message. *)
Definition _agentCallWithRateLimit (agent : Agent) (now : Z)
    (taskDescription fallbackMessage : string) : M CallResult :=
  c <- readThis ;;
  let timeSinceLastCall := now - lastClaudeCall c in
  if timeSinceLastCall <? claudeRateLimit c then
    let waitTime := claudeRateLimit c - timeSinceLastCall in
    emit (EvWarning (rateLimitWarning "agent" waitTime)) ;;
    ret {| resultMessage := fallbackMessage; rateLimited := true |}
  else
    tryCatch
      (assignLastClaudeCall now ;;
       _ <- callAgent agent taskDescription ;;
       ret {| resultMessage := "Agent task completed successfully";
              rateLimited := false |})
      (fun error =>
         if hasRateLimitSignature error then
           emit (EvWarning "Agent rate limit hit, backing off") ;;
           c' <- readThis ;;
           assignLastClaudeCall (now + claudeRateLimit c') ;;
           ret {| resultMessage := fallbackMessage; rateLimited := true |}
         else throw error).

(** The two helpers, so that a statement can range over both. *)
Inductive Helper : Type := ClaudeHelper | AgentHelper.

Definition callWithRateLimit (h : Helper) : Agent -> Z -> string -> string -> M CallResult :=
  match h with
  | ClaudeHelper => _claudeCallWithRateLimit
  | AgentHelper => _agentCallWithRateLimit
  end.

(** The name each helper uses for itself in its warning. *)
Definition helperName (h : Helper) : string :=
  match h with ClaudeHelper => "Claude" | AgentHelper => "agent" end.

(** Was the external agent reached? *)
Definition isAgentCall (e : Event) : bool :=
  match e with EvAgentCall _ => true | _ => false end.

Definition agentCalls (t : list Event) : list Event := filter isAgentCall t.

(** The entry test of the helper, as a decision on its own. *)
Definition denied (c : Carrier) (now : Z) : bool :=
  now - lastClaudeCall c <? claudeRateLimit c.

End RateLimit.


(* ===================================================================== *)
(** ** Booking data model ([models/booking.js]) *)
(* ===================================================================== *)

Module Booking.

(** A property that was never given is [None] ([undefined]). *)
Record Location : Type := mkLocation {
  city : option string;
  country : option string;
  isPort : bool
}.

Record Container : Type := mkContainer {
  containerType : string;   (* DRY, REEFER, ... *)
  size : string;            (* 20, 40 *)
  quantity : Z;
  weightKg : Z
}.

Record InlandTransport : Type := mkInlandTransport {
  transportType : string;   (* SD (Store Door), CY (Container Yard) *)
  isPickup : bool
}.

(** [readyDate] is a [Date], kept as its time value in milliseconds. *)
Record BookingDetails : Type := mkBookingDetails {
  origin : option Location;
  destination : option Location;
  originTransport : option InlandTransport;
  destinationTransport : option InlandTransport;
  containers : option (list Container);
  commodity : option string;
  readyDate : option Z;
  requiresTemperatureControl : bool;
  isDangerousCargo : bool;
  isPriceOwner : bool
}.

(** [!loc || !loc.city || !loc.country] *)
Definition locationMissing (loc : option Location) : bool :=
  match loc with
  | None => true
  | Some l => (negb (truthyOpt (city l)) || negb (truthyOpt (country l)))%bool
  end.

(** [!this.containers || this.containers.length === 0] *)
Definition containersMissing (cs : option (list Container)) : bool :=
  match cs with
  | None => true
  | Some l => Nat.eqb (List.length l) 0
  end.

(** [!this.commodity || this.commodity.trim() === ''] *)
Definition commodityMissing (c : option string) : bool :=
  match c with
  | None => true
  | Some s => (negb (truthyString s) || String.eqb (trim s) "")%bool
  end.

(** [!this.readyDate]: a [Date] object is truthy whatever its value. *)
Definition readyDateMissing (d : option Z) : bool :=
  match d with None => true | Some _ => false end.

(** [errors.push(text)] when [cond] holds. *)
Definition pushIf (cond : bool) (text : string) (errors : list string) : list string :=
  if cond then errors ++ [text] else errors.

(** [BookingDetails.prototype.validate], a method on [this]. *)
Definition validate : Eff BookingDetails (list string) :=
  this <- getState ;;
  let errors := [] in
  let errors := pushIf (locationMissing (origin this))
                       "Origin location is required" errors in
  let errors := pushIf (locationMissing (destination this))
                       "Destination location is required" errors in
  let errors := pushIf (containersMissing (containers this))
                       "At least one container is required" errors in
  let errors := pushIf (commodityMissing (commodity this))
                       "Commodity is required" errors in
  let errors := pushIf (readyDateMissing (readyDate this))
                       "Ready date is required" errors in
  ret errors.

(** [createSampleBooking()]; [now] is the reading of [Date.now()]. *)
Definition createSampleBooking (now : Z) : BookingDetails :=
  {| origin := Some {| city := Some "Houston (Texas)";
                       country := Some "United States";
                       isPort := true |};
     destination := Some {| city := Some "Iquique";
                            country := Some "Chile";
                            isPort := true |};
     originTransport := Some {| transportType := "SD"; isPickup := true |};
     destinationTransport := Some {| transportType := "SD"; isPickup := false |};
     containers := Some [ {| containerType := "DRY"; size := "20";
                             quantity := 1; weightKg := 4000 |} ];
     commodity := Some "Electronics";
     readyDate := Some (now + 7 * 24 * 60 * 60 * 1000);
     requiresTemperatureControl := false;
     isDangerousCargo := false;
     isPriceOwner := true |}.

(** The validation guard that opens [fillBookingForm(bookingDetails)]:
    [const errors = bookingDetails.validate(); if (errors.length > 0) throw
    new Error(...)].  The booking object is the state the method runs on. *)
Definition fillBookingForm_guard : Eff BookingDetails unit :=
  errors <- validate ;;
  if Nat.ltb 0 (List.length errors) then
    throw (mkError ("Booking validation failed: " ++ join ", " errors))
  else ret tt.

(** The conditions of the specification, as a decision on the fields. *)
Definition hasCityAndCountry (loc : option Location) : Prop :=
  exists l, loc = Some l
            /\ truthyOpt (city l) = true /\ truthyOpt (country l) = true.

Definition nonBlank (c : option string) : Prop :=
  exists s, c = Some s /\ trim s <> "".

End Booking.

(* ===================================================================== *)
(** ** The extraction pipeline and the two entry points *)
(* ===================================================================== *)

Module Pipeline.

(** Calls that leave the orchestration code: methods of the carrier and of
    its page and agent, and the file system. *)
Inductive Call : Type :=
| CNewCarrier
| CInitBrowser (headless : bool)
| CHybridLogin
| CPageUrl
| CPageGoto (url : string)
| CVerifyBookingPage
| CFillBookingForm (booking : Booking.BookingDetails)
| CFillSteps
| CSubmitBookingForm
| CExtractRates
| CAgentExecute
| CPageExtract
| CSaveActionHistory (filename : string)
| CTakeScreenshot (filename : string)
| CWriteFile (path : string) (document : JsVal)
| CClose.

(** The trace of a run: each call with whether it returned ([true]) or
    threw ([false]), the timer delays, the warning lines of the logger, the
    failure lines of the logger and of the top-level script (all without
    their pictographs) and what [console.log] prints of a result.
    Informational log lines and the spinner of [main.js] are not part of
    the trace. *)
Inductive Event : Type :=
| EvCall (c : Call) (returned : bool)
| EvSleep (ms : Z)
| EvWarn (text : string)
| EvFail (text : string)
| EvConsole (document : JsVal).

Record PageAnalysis : Type := mkPageAnalysis {
  hasBookingForm : bool;
  hasLocationFields : bool;
  hasContinueButton : bool
}.

Record FormResult : Type := mkFormResult {
  formSuccess : bool;
  canContinue : bool
}.

Record SubmitResult : Type := mkSubmitResult { submitSuccess : bool }.

(** Everything the run does not decide itself: the process environment,
    the clock and date formatting of the runtime, and the outcome of every
    external call. *)
Record Env : Type := mkEnv {
  getenv : string -> option string;
  clock : nat -> Z;                      (* [Date.now()] after so many events *)
  toISOString : Z -> string;             (* [new Date(t).toISOString()] *)
  newCarrier_outcome : Outcome unit;     (* constructor of the carrier main.js loads *)
  newCarrier_baseUrl : string;           (* and its [baseUrl] *)
  initBrowser_outcome : Outcome unit;
  initBrowser_sets_page : bool;
  hybridLogin_outcome : nat -> Outcome bool;   (* by attempt number *)
  pageUrl_outcome : Outcome string;
  pageGoto_outcome : Outcome unit;
  verifyBookingPage_outcome : Outcome PageAnalysis;
  fillBookingForm_outcome : Outcome FormResult;
  fillSteps_outcome : Outcome FormResult;
  submitBookingForm_outcome : Outcome SubmitResult;
  extractRates_outcome : Outcome JsVal;
  agentExecute_outcome : Outcome JsVal;
  pageExtract_outcome : Outcome JsVal;
  saveActionHistory_outcome : Outcome unit;
  takeScreenshot_outcome : string -> Outcome unit;
  writeFile_outcome : string -> JsVal -> Outcome unit;
  close_outcome : Outcome unit
}.

(** The carrier object as far as the scripts look into it. *)
Record CarrierObj : Type := mkCarrierObj {
  baseUrl : string;
  page : bool           (* is [carrier.page] set *)
}.

(** The trace so far and the variable [carrier] of [extractMaerskRates]
    ([let carrier;], assigned once the constructor has returned). *)
Record St : Type := mkSt {
  trace : list Event;
  carrier : option CarrierObj
}.

Definition initial : St := {| trace := []; carrier := None |}.

Definition M (A : Type) : Type := Eff St A.

Definition emit (e : Event) : M unit :=
  modifyState (fun s => {| trace := trace s ++ [e]; carrier := carrier s |}).

Definition setCarrier (c : option CarrierObj) : M unit :=
  modifyState (fun s => {| trace := trace s; carrier := c |}).

Definition getCarrier : M (option CarrierObj) :=
  s <- getState ;; ret (carrier s).

(** An external call: recorded with its outcome, then returns or throws. *)
Definition call {A} (c : Call) (o : Outcome A) : M A :=
  match o with
  | Returns a => emit (EvCall c true) ;; ret a
  | Raises e => emit (EvCall c false) ;; throw e
  end.

(** [await new Promise(resolve => setTimeout(resolve, ms))] *)
Definition sleep (ms : Z) : M unit := emit (EvSleep ms).

(** [Date.now()] *)
Definition dateNow (env : Env) : M Z :=
  s <- getState ;; ret (clock env (List.length (trace s))).

(** [new Date().toISOString()] *)
Definition isoNow (env : Env) : M string :=
  t <- dateNow env ;; ret (toISOString env t).

(** [v.name]: a [TypeError] on [undefined] and [null]. *)
Definition prop (v : JsVal) (name : string) : M JsVal :=
  match v with
  | VUndefined =>
      throw (mkError ("Cannot read properties of undefined (reading '"
                        ++ name ++ "')"))
  | VNull =>
      throw (mkError ("Cannot read properties of null (reading '"
                        ++ name ++ "')"))
  | VObj fields => ret (lookupField name fields)
  | _ => ret VUndefined
  end.

Definition truthy (v : JsVal) : bool :=
  match v with
  | VUndefined | VNull => false
  | VBool b => b
  | VNum n => negb (n =? 0)
  | VStr s => truthyString s
  | VArr _ | VObj _ => true
  end.

(** Runs a method on an object of its own. *)
Definition onObject {T A} (obj : T) (method : Eff T A) : M A :=
  fun s => (fst (method obj), s).

(** *** The login retry loop (the same in both scripts, up to the label
    of its log lines) *)

Definition maxLoginAttempts : nat := 2.

Definition showNat (n : nat) : string := showZ (Z.of_nat n).

(** One iteration of the loop body; the result is the new value of
    [loginSuccess]. *)
Definition loginAttempt (label : string) (hybridLogin : nat -> Outcome bool)
    (maxAttempts attempt : nat) : M bool :=
  tryCatch
    (ok <- call CHybridLogin (hybridLogin attempt) ;;
     (if ok then ret tt
      else emit (EvWarn (label ++ " sequential login returned false"))) ;;
     ret ok)
    (fun loginError =>
       emit (EvWarn (label ++ " login attempt " ++ showNat attempt
                       ++ " failed: " ++ message loginError)) ;;
       if Nat.ltb attempt maxAttempts then
         sleep 3000 ;; ret false
       else
         emit (EvFail ("Maximum " ++ label ++ " login attempts reached.")) ;;
         throw loginError).

(** [for (let attempt = first; attempt <= maxAttempts && !loginSuccess;
    attempt++)], with [remaining] the number of values [attempt] can still
    take. *)
Fixpoint loginLoopFrom (label : string) (hybridLogin : nat -> Outcome bool)
    (maxAttempts remaining attempt : nat) : M bool :=
  match remaining with
  | O => ret false
  | S remaining' =>
      loginSuccess <- loginAttempt label hybridLogin maxAttempts attempt ;;
      if loginSuccess then ret true
      else loginLoopFrom label hybridLogin maxAttempts remaining' (S attempt)
  end.

Definition loginLoop (label : string) (hybridLogin : nat -> Outcome bool)
    (maxAttempts : nat) : M bool :=
  loginLoopFrom label hybridLogin maxAttempts maxAttempts 1%nat.

(** *** Methods of the Claude carrier that the pipeline depends on *)

(** [new MaerskCarrier()] of the Claude carrier, assigned to [carrier]. *)
Definition newMaerskCarrier (env : Env) : M unit :=
  if (negb (truthyOpt (getenv env "MAERSK_USERNAME"))
      || negb (truthyOpt (getenv env "MAERSK_PASSWORD")))%bool then
    emit (EvCall CNewCarrier false) ;;
    throw (mkError "MAERSK_USERNAME and MAERSK_PASSWORD must be set in environment variables")
  else if negb (truthyOpt (getenv env "ANTHROPIC_API_KEY")) then
    emit (EvCall CNewCarrier false) ;;
    throw (mkError "ANTHROPIC_API_KEY must be set in environment variables for Claude")
  else
    emit (EvCall CNewCarrier true) ;;
    setCarrier (Some {| baseUrl := if truthyOpt (getenv env "MAERSK_BASE_URL")
                                   then match getenv env "MAERSK_BASE_URL" with
                                        | Some u => u
                                        | None => "https://www.maersk.com"
                                        end
                                   else "https://www.maersk.com";
                        page := false |}).

(** [carrier.initBrowser(headless)]: [this.page] is assigned on the way. *)
Definition initBrowser (env : Env) (headless : bool) : M unit :=
  c <- getCarrier ;;
  setCarrier (match c with
              | Some obj => Some {| baseUrl := baseUrl obj;
                                    page := initBrowser_sets_page env |}
              | None => None
              end) ;;
  call (CInitBrowser headless) (initBrowser_outcome env).

(** [carrier.page.url()] *)
Definition pageUrl (env : Env) : M string :=
  c <- getCarrier ;;
  match c with
  | Some obj =>
      if page obj then call CPageUrl (pageUrl_outcome env)
      else throw (mkError "Cannot read properties of null (reading 'url')")
  | None => throw (mkError "Cannot read properties of undefined (reading 'page')")
  end.

(** [carrier.takeScreenshot(filename)]: nothing happens without a page. *)
Definition takeScreenshot (env : Env) (filename : string) : M unit :=
  c <- getCarrier ;;
  match c with
  | Some obj =>
      if page obj
      then call (CTakeScreenshot filename) (takeScreenshot_outcome env filename)
      else ret tt
  | None => ret tt
  end.

(** [carrier.fillBookingForm(booking)]: the validation guard, then the
    agent-driven steps, all inside the method's [try]. *)
Definition fillBookingForm (env : Env) (booking : Booking.BookingDetails)
    : M FormResult :=
  tryCatch
    (onObject booking Booking.fillBookingForm_guard ;;
     call CFillSteps (fillSteps_outcome env))
    (fun error =>
       takeScreenshot env "error_form_filling_targeted.png" ;;
       emit (EvFail ("Targeted form filling failed: " ++ message error)) ;;
       throw error).

(** [carrier.extractRates()] *)
Definition extractRates (env : Env) : M JsVal :=
  tryCatch
    (rateAnalysis <- call CAgentExecute (agentExecute_outcome env) ;;
     structuredRates <- call CPageExtract (pageExtract_outcome env) ;;
     stamp <- isoNow env ;;
     analysisMessage <- prop rateAnalysis "message" ;;
     totalOptions <- prop structuredRates "totalOptionsFound" ;;
     hasRates <- prop structuredRates "hasRateInformation" ;;
     pageType <- prop structuredRates "pageType" ;;
     let jsonResult :=
       VObj [ ("success", VBool true);
              ("extractionTimestamp", VStr stamp);
              ("source", VStr "Maersk.com");
              ("claudeAnalysis", analysisMessage);
              ("rateData", structuredRates);
              ("summary", VObj [ ("totalOptions", totalOptions);
                                 ("hasRates", hasRates);
                                 ("pageAnalyzed", pageType) ]) ] in
     emit (EvConsole (jsonOf jsonResult)) ;;
     ret jsonResult)
    (fun error =>
       emit (EvFail ("Rate extraction failed: " ++ message error)) ;;
       takeScreenshot env "error_rate_extraction_claude.png" ;;
       stamp <- isoNow env ;;
       let errorResult :=
         VObj [ ("success", VBool false);
                ("error", VStr (message error));
                ("extractionTimestamp", VStr stamp);
                ("source", VStr "Maersk.com") ] in
       emit (EvConsole (jsonOf errorResult)) ;;
       throw error).


(** *** [extractMaerskRates] *)

Definition missingCredentials (env : Env) : bool :=
  (negb (truthyOpt (getenv env "MAERSK_USERNAME"))
   || negb (truthyOpt (getenv env "MAERSK_PASSWORD")))%bool.

Definition resultsFile : string := "maersk-rates.json".

(** The body of the [try] block. *)
Definition extractMaerskRates_try (env : Env) : M JsVal :=
  if missingCredentials env then
    throw (mkError "Missing MAERSK_USERNAME or MAERSK_PASSWORD in environment variables")
  else if negb (truthyOpt (getenv env "ANTHROPIC_API_KEY")) then
    throw (mkError "Missing ANTHROPIC_API_KEY in environment variables")
  else
    now <- dateNow env ;;
    let booking := Booking.createSampleBooking now in
    newMaerskCarrier env ;;
    initBrowser env false ;;
    loginSuccess <- loginLoop "Claude" (hybridLogin_outcome env) maxLoginAttempts ;;
    if negb loginSuccess then
      throw (mkError "All Claude login attempts failed")
    else
      currentUrl <- pageUrl env ;;
      (if negb (includes "/book" currentUrl) then
         c <- getCarrier ;;
         call (CPageGoto (match c with
                          | Some obj => baseUrl obj ++ "/book/"
                          | None => "/book/"
                          end)) (pageGoto_outcome env) ;;
         sleep 2000
       else ret tt) ;;
      pageAnalysis <- call CVerifyBookingPage (verifyBookingPage_outcome env) ;;
      if (hasBookingForm pageAnalysis && hasLocationFields pageAnalysis)%bool then
        formResult <- fillBookingForm env booking ;;
        if canContinue formResult then
          submitResult <- call CSubmitBookingForm (submitBookingForm_outcome env) ;;
          if submitSuccess submitResult then
            rateResults <- extractRates env ;;
            call (CWriteFile resultsFile (jsonOf rateResults))
                 (writeFile_outcome env resultsFile (jsonOf rateResults)) ;;
            rateData <- prop rateResults "rateData" ;;
            totalOptions <- prop rateData "totalOptionsFound" ;;
            pageType <- prop rateData "pageType" ;;
            claudeAnalysis <- prop rateResults "claudeAnalysis" ;;
            stamp <- prop rateResults "extractionTimestamp" ;;
            ret (VObj [ ("success", VBool true);
                        ("summary", VObj [ ("totalOptions", totalOptions);
                                           ("pageAnalyzed", pageType) ]);
                        ("rateData", rateData);
                        ("claudeAnalysis", claudeAnalysis);
                        ("extractionTimestamp", stamp) ])
          else throw (mkError "Form submission failed")
        else throw (mkError "No continue button found - form may need manual review")
      else throw (mkError "Expected booking form elements not found").

(** The [catch (error)] block. *)
Definition extractMaerskRates_catch (env : Env) (error : JsError) : M JsVal :=
  emit (EvFail ("Error during Claude automation: " ++ message error)) ;;
  c <- getCarrier ;;
  (match c with
   | Some obj =>
       if page obj then
         tryCatch (takeScreenshot env "error_claude_extraction.png")
                  (fun screenshotError =>
                     emit (EvWarn ("Screenshot error: " ++ message screenshotError)))
       else ret tt
   | None => ret tt
   end) ;;
  stamp <- isoNow env ;;
  let errorResult :=
    VObj [ ("success", VBool false);
           ("error", VStr (message error));
           ("extractionTimestamp", VStr stamp);
           ("summary", VObj [ ("totalOptions", VNum 0);
                              ("pageAnalyzed", VStr "Error occurred") ]) ] in
  call (CWriteFile resultsFile (jsonOf errorResult))
       (writeFile_outcome env resultsFile (jsonOf errorResult)) ;;
  throw error.

(** The [finally] block. *)
Definition extractMaerskRates_finally (env : Env) : M unit :=
  c <- getCarrier ;;
  match c with
  | Some _ =>
      tryCatch (call CClose (close_outcome env))
               (fun cleanupError =>
                  emit (EvWarn ("Cleanup error: " ++ message cleanupError)))
  | None => ret tt
  end.

Definition extractMaerskRates (env : Env) : M JsVal :=
  tryCatchFinally (extractMaerskRates_try env)
                  (extractMaerskRates_catch env)
                  (extractMaerskRates_finally env).

(** *** The Claude entry point ([main] of the top-level script) *)



(** *** The OpenAI entry point ([main] of [src/main.js]); its carrier is
    reached through its methods only *)

(** [rates.forEach((rate, index) => logger.info(...))]: each element is
    read for its [serviceName], [price] and [transitTime]. *)
Fixpoint logRates (items : list JsVal) : M unit :=
  match items with
  | [] => ret tt
  | rate :: rest =>
      _ <- prop rate "serviceName" ;;
      _ <- prop rate "price" ;;
      _ <- prop rate "transitTime" ;;
      logRates rest
  end.

(** The inner [try] around rate extraction and the replay file. *)
Definition main_rates (env : Env) : M unit :=
  tryCatch
    (rateResults <- call CExtractRates (extractRates_outcome env) ;;
     _ <- prop rateResults "agentSummary" ;;
     detailedRates <- prop rateResults "detailedRates" ;;
     hasInfo <- prop detailedRates "hasRateInformation" ;;
     (if truthy hasInfo then
        rates <- prop detailedRates "rates" ;;
        match rates with
        | VArr items => logRates items
        | VUndefined | VNull =>
            _ <- prop rates "forEach" ;; ret tt
        | _ => throw (mkError "rateResults.detailedRates.rates.forEach is not a function")
        end
      else emit (EvWarn "No rate information found on current page")) ;;
     call (CSaveActionHistory "maersk_rate_extraction_replay.js")
          (saveActionHistory_outcome env))
    (fun rateError =>
       emit (EvWarn ("Rate extraction error: " ++ message rateError))).

(** The [try] around form filling and submission. *)
Definition main_form (env : Env) (booking : Booking.BookingDetails) : M unit :=
  tryCatch
    (formResult <- call (CFillBookingForm booking) (fillBookingForm_outcome env) ;;
     if canContinue formResult then
       submitResult <- call CSubmitBookingForm (submitBookingForm_outcome env) ;;
       if submitSuccess submitResult then main_rates env
       else ret tt
     else ret tt)
    (fun formError =>
       emit (EvFail ("Error filling booking form: " ++ message formError)) ;;
       call (CTakeScreenshot "error_form_filling.png")
            (takeScreenshot_outcome env "error_form_filling.png")).

(** The body of the outer [try]. *)
Definition main_try (env : Env) : M unit :=
  if missingCredentials env then
    emit (EvFail "Missing credentials in .env file") ;;
    emit (EvFail "Please ensure MAERSK_USERNAME and MAERSK_PASSWORD are set in your .env file") ;;
    processExit 1
  else if negb (truthyOpt (getenv env "OPENAI_API_KEY")) then
    emit (EvFail "Missing OpenAI API key in .env file") ;;
    emit (EvFail "Please ensure OPENAI_API_KEY is set for Stagehand AI to work") ;;
    processExit 1
  else
    now <- dateNow env ;;
    let booking := Booking.createSampleBooking now in
    call CNewCarrier (newCarrier_outcome env) ;;
    call (CInitBrowser false) (initBrowser_outcome env) ;;
    loginSuccess <- loginLoop "OpenAI Computer Use" (hybridLogin_outcome env)
                              maxLoginAttempts ;;
    if negb loginSuccess then
      emit (EvFail "All OpenAI Computer Use login attempts failed") ;;
      ret tt
    else
      sleep 3000 ;;
      currentUrl <- call CPageUrl (pageUrl_outcome env) ;;
      (if negb (includes "/book" currentUrl) then
         call (CPageGoto (newCarrier_baseUrl env ++ "/book/")) (pageGoto_outcome env)
       else ret tt) ;;
      pageAnalysis <- call CVerifyBookingPage (verifyBookingPage_outcome env) ;;
      (if (hasBookingForm pageAnalysis && hasLocationFields pageAnalysis)%bool then
         main_form env booking
       else
         emit (EvWarn "Expected booking form elements not found") ;;
         call (CTakeScreenshot "debug_no_booking_form.png")
              (takeScreenshot_outcome env "debug_no_booking_form.png")) ;;
      sleep 60000 ;;
      call CClose (close_outcome env).

(** The outer [catch]: [carrier] is scoped to the [try] block, so
    [typeof carrier !== 'undefined'] is false here and neither the
    screenshot nor [close] is reached. *)
Definition main_catch (error : JsError) : M unit :=
  emit (EvFail ("Error during OpenAI Computer Use automation: " ++ message error)) ;;
  processExit 1.

Definition main (env : Env) : M unit :=
  tryCatch (main_try env) main_catch.

(** *** Process exit code *)

(** The code the process ends with: the argument of [process.exit], 0 when
    the script runs to its end, 1 when an error is left uncaught. *)
Definition exitCode {A} (c : Completion A) : Z :=
  match c with
  | Normal _ => 0
  | Throws _ => 1
  | Exits code => code
  end.

(** *** Reading a trace *)

Definition isClose (e : Event) : bool :=
  match e with EvCall CClose _ => true | _ => false end.

Definition isLoginAttempt (e : Event) : bool :=
  match e with EvCall CHybridLogin _ => true | _ => false end.

Definition isCarrierConstructed (e : Event) : bool :=
  match e with EvCall CNewCarrier true => true | _ => false end.


Definition count (p : Event -> bool) (t : list Event) : nat :=
  List.length (filter p t).

(** The documents handed to [writeFile]. *)
Fixpoint writtenDocuments (t : list Event) : list JsVal :=
  match t with
  | [] => []
  | EvCall (CWriteFile _ doc) _ :: rest => doc :: writtenDocuments rest
  | _ :: rest => writtenDocuments rest
  end.

(** The delays slept, in order. *)
Fixpoint sleeps (t : list Event) : list Z :=
  match t with
  | [] => []
  | EvSleep ms :: rest => ms :: sleeps rest
  | _ :: rest => sleeps rest
  end.

(** Attempts and delays of a trace, in order: [None] for a login attempt,
    [Some ms] for a delay. *)
Fixpoint attemptsAndSleeps (t : list Event) : list (option Z) :=
  match t with
  | [] => []
  | EvCall CHybridLogin _ :: rest => None :: attemptsAndSleeps rest
  | EvSleep ms :: rest => Some ms :: attemptsAndSleeps rest
  | _ :: rest => attemptsAndSleeps rest
  end.

(** [n] attempts with the delay [ms] between consecutive ones. *)
Fixpoint attemptsSeparatedBy (ms : Z) (n : nat) : list (option Z) :=
  match n with
  | O => []
  | S O => [None]
  | S n' => None :: Some ms :: attemptsSeparatedBy ms n'
  end.

(** A [hybridLogin] that throws [errs k] at its [k]-th call. *)
Definition alwaysThrows (errs : nat -> JsError) : nat -> Outcome bool :=
  fun k => Raises (errs k).

(** The trace the login loop adds when every attempt from [attempt] on
    throws [errs attempt], with [remaining] attempts to go. *)
Fixpoint exhaustedLoginTrace (label : string) (errs : nat -> JsError)
    (remaining attempt : nat) : list Event :=
  match remaining with
  | O => []
  | S O =>
      [ EvCall CHybridLogin false;
        EvWarn (label ++ " login attempt " ++ showNat attempt
                  ++ " failed: " ++ message (errs attempt));
        EvFail ("Maximum " ++ label ++ " login attempts reached.") ]
  | S remaining' =>
      [ EvCall CHybridLogin false;
        EvWarn (label ++ " login attempt " ++ showNat attempt
                  ++ " failed: " ++ message (errs attempt));
        EvSleep 3000 ]
      ++ exhaustedLoginTrace label errs remaining' (S attempt)
  end.

(** *** The shape of a result document *)

(** A document has a boolean [success], a string [extractionTimestamp]
    that [toISOString] produced, an object [summary] and, when [success]
    is false, a string [error]. *)
Definition wellShaped (env : Env) (doc : JsVal) : Prop :=
  (exists b, docMember "success" doc = Some (VBool b)
             /\ (b = false -> exists text, docMember "error" doc = Some (VStr text)))
  /\ (exists t, docMember "extractionTimestamp" doc = Some (VStr (toISOString env t)))
  /\ (exists fields, docMember "summary" doc = Some (VObj fields)).

(** What [carrier.extractRates()] returns. *)
Definition isRateResults (env : Env) (v : JsVal) : Prop :=
  exists t analysis rateData summary,
    v = VObj [ ("success", VBool true);
               ("extractionTimestamp", VStr (toISOString env t));
               ("source", VStr "Maersk.com");
               ("claudeAnalysis", analysis);
               ("rateData", rateData);
               ("summary", VObj summary) ].

(** What [extractMaerskRates] returns. *)
Definition isPipelineResult (v : JsVal) : Prop :=
  exists summary rest,
    v = VObj (("success", VBool true) :: ("summary", VObj summary) :: rest).

(** *** Invariants of a run *)

(** Events that are neither [close], nor a completed construction of the
    carrier, nor a file write. *)
Definition benign (e : Event) : bool :=
  match e with
  | EvCall CClose _ => false
  | EvCall CNewCarrier true => false
  | EvCall (CWriteFile _ _) _ => false
  | _ => true
  end.

Definition isSome {A} (o : option A) : bool :=
  match o with Some _ => true | None => false end.

(** A computation keeps the invariant [I], returns only values in [Q], and
    never ends the process. *)
Definition sound (I : St -> Prop) {A} (Q : A -> Prop) (m : M A) : Prop :=
  forall s, I s ->
    I (snd (m s))
    /\ (forall a, fst (m s) = Normal a -> Q a)
    /\ (forall n, fst (m s) <> Exits n).

(** So far no [close], and the variable [carrier] is set exactly when the
    construction of the carrier has completed. *)
Definition notYetClosed (s : St) : Prop :=
  count isClose (trace s) = 0%nat
  /\ existsb isCarrierConstructed (trace s) = isSome (carrier s).


(** What the [finally] block adds to the trace. *)
Definition closingEvents (env : Env) (constructed : bool) : list Event :=
  if constructed then
    match close_outcome env with
    | Returns _ => [EvCall CClose true]
    | Raises e => [EvCall CClose false; EvWarn ("Cleanup error: " ++ message e)]
    end
  else [].

(** *** Environments *)

Definition with_close (o : Outcome unit) (env : Env) : Env :=
  {| getenv := getenv env; clock := clock env; toISOString := toISOString env;
     newCarrier_outcome := newCarrier_outcome env;
     newCarrier_baseUrl := newCarrier_baseUrl env;
     initBrowser_outcome := initBrowser_outcome env;
     initBrowser_sets_page := initBrowser_sets_page env;
     hybridLogin_outcome := hybridLogin_outcome env;
     pageUrl_outcome := pageUrl_outcome env;
     pageGoto_outcome := pageGoto_outcome env;
     verifyBookingPage_outcome := verifyBookingPage_outcome env;
     fillBookingForm_outcome := fillBookingForm_outcome env;
     fillSteps_outcome := fillSteps_outcome env;
     submitBookingForm_outcome := submitBookingForm_outcome env;
     extractRates_outcome := extractRates_outcome env;
     agentExecute_outcome := agentExecute_outcome env;
     pageExtract_outcome := pageExtract_outcome env;
     saveActionHistory_outcome := saveActionHistory_outcome env;
     takeScreenshot_outcome := takeScreenshot_outcome env;
     writeFile_outcome := writeFile_outcome env;
     close_outcome := o |}.

Definition with_hybridLogin (f : nat -> Outcome bool) (env : Env) : Env :=
  {| getenv := getenv env; clock := clock env; toISOString := toISOString env;
     newCarrier_outcome := newCarrier_outcome env;
     newCarrier_baseUrl := newCarrier_baseUrl env;
     initBrowser_outcome := initBrowser_outcome env;
     initBrowser_sets_page := initBrowser_sets_page env;
     hybridLogin_outcome := f;
     pageUrl_outcome := pageUrl_outcome env;
     pageGoto_outcome := pageGoto_outcome env;
     verifyBookingPage_outcome := verifyBookingPage_outcome env;
     fillBookingForm_outcome := fillBookingForm_outcome env;
     fillSteps_outcome := fillSteps_outcome env;
     submitBookingForm_outcome := submitBookingForm_outcome env;
     extractRates_outcome := extractRates_outcome env;
     agentExecute_outcome := agentExecute_outcome env;
     pageExtract_outcome := pageExtract_outcome env;
     saveActionHistory_outcome := saveActionHistory_outcome env;
     takeScreenshot_outcome := takeScreenshot_outcome env;
     writeFile_outcome := writeFile_outcome env;
     close_outcome := close_outcome env |}.


(** An environment in which the configuration is complete and every call
    returns what a successful run needs. *)
Definition cooperativeEnv : Env :=
  {| getenv := fun name =>
       if String.eqb name "MAERSK_BASE_URL" then None else Some "set";
     clock := fun n => 1700000000000 + Z.of_nat n;
     toISOString := fun _ => "2023-11-14T22:13:20.000Z";
     newCarrier_outcome := Returns tt;
     newCarrier_baseUrl := "https://www.maersk.com";
     initBrowser_outcome := Returns tt;
     initBrowser_sets_page := true;
     hybridLogin_outcome := fun _ => Returns true;
     pageUrl_outcome := Returns "https://www.maersk.com/book/";
     pageGoto_outcome := Returns tt;
     verifyBookingPage_outcome :=
       Returns {| hasBookingForm := true; hasLocationFields := true;
                  hasContinueButton := true |};
     fillBookingForm_outcome := Returns {| formSuccess := true; canContinue := true |};
     fillSteps_outcome := Returns {| formSuccess := true; canContinue := true |};
     submitBookingForm_outcome := Returns {| submitSuccess := true |};
     extractRates_outcome :=
       Returns (VObj [ ("agentSummary", VStr "one option");
                       ("detailedRates",
                        VObj [ ("hasRateInformation", VBool true);
                               ("totalOptionsFound", VNum 1);
                               ("rates", VArr [ VObj [ ("serviceName", VStr "Spot");
                                                       ("price", VStr "1200");
                                                       ("transitTime", VStr "30 days") ] ]) ]) ]);
     agentExecute_outcome := Returns (VObj [ ("message", VStr "one option") ]);
     pageExtract_outcome :=
       Returns (VObj [ ("rates", VArr []);
                       ("totalOptionsFound", VNum 1);
                       ("hasRateInformation", VBool true);
                       ("pageType", VStr "rates") ]);
     saveActionHistory_outcome := Returns tt;
     takeScreenshot_outcome := fun _ => Returns tt;
     writeFile_outcome := fun _ _ => Returns tt;
     close_outcome := Returns tt |}.





(** An error message that names an action and an attempt count. *)
Definition carriesContext (thrown : JsError) (actionId : string) (attempts : nat)
    : Prop :=
  includes actionId (message thrown) = true
  /\ includes (showNat attempts) (message thrown) = true.

(** The configuration [extractMaerskRates] insists on. *)
Definition claudeConfigured (env : Env) : Prop :=
  missingCredentials env = false
  /\ truthyOpt (getenv env "ANTHROPIC_API_KEY") = true.


Definition isNormal {A} (c : Completion A) : bool :=
  match c with Normal _ => true | _ => false end.

End Pipeline.


(* ===================================================================== *)
(** ** Specifications of effectful computations *)
(* ===================================================================== *)

Module Triples.

(** A postcondition by cases on how the computation completed. *)
Definition post {S A} (N : A -> S -> Prop) (T : JsError -> S -> Prop)
    (X : Z -> S -> Prop) (r : Completion A) (s : S) : Prop :=
  match r with
  | Normal a => N a s
  | Throws e => T e s
  | Exits n => X n s
  end.

(** From a state in [P], the computation ends in a state that satisfies
    [N] with the value returned, [T] with the error thrown, or [X] with the
    exit code. *)
Definition triple {S A} (P : S -> Prop) (m : Eff S A) (N : A -> S -> Prop)
    (T : JsError -> S -> Prop) (X : Z -> S -> Prop) : Prop :=
  forall s, P s -> post N T X (fst (m s)) (snd (m s)).

(** The computation never ends the process. *)
Definition neverExits {S A} (m : Eff S A) : Prop :=
  forall s n, fst (m s) <> Exits n.

End Triples.

(* ===================================================================== *)
(** ** Sequences of rate-limited calls *)
(* ===================================================================== *)

Module RateLimitRuns.
Import RateLimit.

(** One use of a helper: which helper, what the agent would answer, the
    reading of [Date.now()] and the two arguments. *)
Record Request : Type := mkRequest {
  viaHelper : Helper;
  agentThen : Agent;
  atTime : Z;
  taskText : string;
  fallbackText : string
}.

(** The carrier and trace after one call; an error the helper throws goes
    to its caller and the carrier lives on. *)
Definition serve (r : Request) (m : Machine) : Machine :=
  snd (callWithRateLimit (viaHelper r) (agentThen r) (atTime r)
         (taskText r) (fallbackText r) m).

Fixpoint serveAll (requests : list Request) (m : Machine) : Machine :=
  match requests with
  | [] => m
  | r :: rest => serveAll rest (serve r m)
  end.

(** The clock readings of the requests that passed the entry test. *)
Fixpoint allowedTimes (requests : list Request) (m : Machine) : list Z :=
  match requests with
  | [] => []
  | r :: rest =>
      if denied (this m) (atTime r)
      then allowedTimes rest (serve r m)
      else atTime r :: allowedTimes rest (serve r m)
  end.

(** Consecutive elements are at least [gap] apart. *)
Fixpoint spaced (gap : Z) (times : list Z) : Prop :=
  match times with
  | [] => True
  | t1 :: rest =>
      match rest with
      | [] => True
      | t2 :: _ => t1 + gap <= t2
      end /\ spaced gap rest
  end.

End RateLimitRuns.

(* ===================================================================== *)
(** ** Further readings of a pipeline trace *)
(* ===================================================================== *)

Module PipelineReading.
Import Pipeline.

(** The agent-driven steps of [fillBookingForm]. *)
Definition isFillSteps (e : Event) : bool :=
  match e with EvCall CFillSteps _ => true | _ => false end.

Definition isSleep (e : Event) : bool :=
  match e with EvSleep _ => true | _ => false end.

(** The error the validation guard of [fillBookingForm] throws. *)
Definition validationError (errors : list string) : JsError :=
  mkError ("Booking validation failed: " ++ join ", " errors).

(** A state with more events in its trace. *)
Definition extend (s : St) (added : list Event) : St :=
  {| trace := trace s ++ added; carrier := carrier s |}.

(** A [hybridLogin] that returns [false] at every call. *)
Definition alwaysFalse : nat -> Outcome bool := fun _ => Returns false.

(** The document reports a successful extraction. *)
Definition reportsSuccess (doc : JsVal) : Prop :=
  docMember "success" doc = Some (VBool true).

(** The document the [catch] block of [extractMaerskRates] writes. *)
Definition errorResult (text stamp : string) : JsVal :=
  VObj [ ("success", VBool false);
         ("error", VStr text);
         ("extractionTimestamp", VStr stamp);
         ("summary", VObj [ ("totalOptions", VNum 0);
                            ("pageAnalyzed", VStr "Error occurred") ]) ].

Definition nothingWritten (s : St) : Prop := writtenDocuments (trace s) = [].

(** At most one document written so far, and it reports success. *)
Definition writtenOnSuccessOnly (s : St) : Prop :=
  (List.length (writtenDocuments (trace s)) <= 1)%nat
  /\ Forall reportsSuccess (writtenDocuments (trace s)).

(** A [close] that returned. *)
Definition isReturnedClose (e : Event) : bool :=
  match e with EvCall CClose true => true | _ => false end.

Definition neverClosed (s : St) : Prop := count isClose (trace s) = 0%nat.

(** At most one [close], and none that returned. *)
Definition leftOpen (s : St) : Prop :=
  (count isClose (trace s) <= 1)%nat
  /\ existsb isReturnedClose (trace s) = false.

(** What is needed for [main.js] to reach its login loop. *)
Definition openaiReady (env : Env) : Prop :=
  missingCredentials env = false
  /\ truthyOpt (getenv env "OPENAI_API_KEY") = true
  /\ newCarrier_outcome env = Returns tt
  /\ initBrowser_outcome env = Returns tt.

End PipelineReading.

(* ===================================================================== *)
(** ** The setup script ([setup.js]) *)
(* ===================================================================== *)

Module Setup.

(** What the script does to the outside: shell commands, questions put to
    the user and writes to the disk.  Its [console] output is not kept. *)
Inductive Event : Type :=
| EvExec (command : string) (returned : bool)
| EvPrompt (question : string)
| EvWrite (path content : string) (returned : bool).

(** The machine the script runs on: whether each command succeeds and
    what it leaves of the working directory ([npm install] writes
    [node_modules] and may rewrite the lock file), what the user types at
    each question, whether a write succeeds. *)
Record World : Type := mkWorld {
  execSync_outcome : string -> Outcome unit;
  execSync_files : string -> list (string * string) -> list (string * string);
  typed : string -> string;
  writeFileSync_outcome : string -> string -> Outcome unit
}.

(** The files of the working directory, latest write first, and the trace. *)
Record Disk : Type := mkDisk {
  files : list (string * string);
  trace : list Event
}.

Definition M (A : Type) : Type := Eff Disk A.

Fixpoint readFile (path : string) (fs : list (string * string)) : option string :=
  match fs with
  | [] => None
  | (p, content) :: rest => if String.eqb p path then Some content else readFile path rest
  end.

Definition emit (e : Event) : M unit :=
  modifyState (fun d => {| files := files d; trace := trace d ++ [e] |}).

(** [existsSync(path)] *)
Definition existsSync (path : string) : M bool :=
  d <- getState ;;
  ret (match readFile path (files d) with Some _ => true | None => false end).

(** [writeFileSync(path, content)] *)
Definition writeFileSync (w : World) (path content : string) : M unit :=
  match writeFileSync_outcome w path content with
  | Returns _ =>
      modifyState (fun d => {| files := (path, content) :: files d;
                               trace := trace d ++ [EvWrite path content true] |})
  | Raises e => emit (EvWrite path content false) ;; throw e
  end.

(** [execSync(command, { stdio: 'inherit' })]: the command does to the
    working directory what it does, then returns or throws. *)
Definition execSync (w : World) (command : string) : M unit :=
  modifyState (fun d => {| files := execSync_files w command (files d);
                           trace := trace d |}) ;;
  match execSync_outcome w command with
  | Returns _ => emit (EvExec command true)
  | Raises e => emit (EvExec command false) ;; throw e
  end.

(** The value [promptUser] resolves to for a typed answer:
    [answer.trim() || defaultValue]. *)
Definition promptValue (answer defaultValue : string) : string :=
  if truthyString (trim answer) then trim answer else defaultValue.

(** [await promptUser(question, defaultValue)] *)
Definition promptUser (w : World) (question defaultValue : string) : M string :=
  emit (EvPrompt question) ;;
  ret (promptValue (typed w question) defaultValue).

Definition envExample : string :=
"# Maersk Configuration
MAERSK_BASE_URL=https://www.maersk.com
MAERSK_USERNAME=your_maersk_username
MAERSK_PASSWORD=your_maersk_password

# AI Model Configuration for Stagehand
# Note: You need an OpenAI API key for Stagehand to work
OPENAI_API_KEY=your_openai_api_key

# Claude API Configuration (for Computer Use models)
# Note: Required for Claude Computer Use functionality
ANTHROPIC_API_KEY=your_anthropic_api_key

# Standard AI Model (default: gpt-4o-mini)
MODEL_NAME=gpt-4o-mini

# Claude Computer Use Model (Optional - for enhanced automation)
# Available options: claude-3-7-sonnet-20250219, claude-3-7-sonnet-20250219
# COMPUTER_USE_MODEL=claude-3-7-sonnet-20250219

# Logging Configuration
LOG_LEVEL=info

# Browser Configuration (Optional)
# Set to true for headless mode (no browser window)
HEADLESS=false

# Rate Limiting (Optional)
# Delay between actions in milliseconds
ACTION_DELAY=1000".

Definition newline : string := String (ascii_of_nat 10) EmptyString.

(** [createEnvExample()] *)
Definition createEnvExample (w : World) : M string :=
  present <- existsSync ".env.example" ;;
  (if negb present then writeFileSync w ".env.example" envExample else ret tt) ;;
  ret envExample.

Definition modelQuestion : string :=
  "Standard AI Model (gpt-4o-mini, gpt-4o, claude-3-5-sonnet-20241022): ".
Definition computerUseQuestion : string :=
  "Claude Computer Use Model (claude-3-7-sonnet-20250219, claude-3-7-sonnet-20250219, or leave empty): ".

(** The text written to [.env]. *)
Definition envContent (example modelName computerUseModel : string) : string :=
  let content := example ++ newline ++ "# AI Model Configuration" ++ newline in
  let content := content ++ "MODEL_NAME=" ++ modelName ++ newline in
  if truthyString (trim computerUseModel)
  then content ++ "COMPUTER_USE_MODEL=" ++ computerUseModel ++ newline
  else content.

(** [setup()] *)
Definition setup (w : World) : M unit :=
  tryCatch (execSync w "npm install")
           (fun _ => processExit 1) ;;
  tryCatch (execSync w "npx playwright install chromium")
           (fun _ => ret tt) ;;
  example <- createEnvExample w ;;
  present <- existsSync ".env" ;;
  if negb present then
    modelName <- promptUser w modelQuestion "gpt-4o-mini" ;;
    computerUseModel <- promptUser w computerUseQuestion "claude-3-7-sonnet-20250219" ;;
    writeFileSync w ".env" (envContent example modelName computerUseModel)
  else ret tt.

(** [setup().catch(error => { console.error(...); process.exit(1); })] *)
Definition run (w : World) : M unit :=
  tryCatch (setup w) (fun _ => processExit 1).

Definition isWrite (e : Event) : bool :=
  match e with EvWrite _ _ _ => true | _ => false end.

(** The working directory as the installation commands of [setup] leave
    it: the browser installation runs only when [npm install] returned. *)
Definition afterCommands (w : World) (fs : list (string * string))
    : list (string * string) :=
  let installed := execSync_files w "npm install" fs in
  match execSync_outcome w "npm install" with
  | Returns _ => execSync_files w "npx playwright install chromium" installed
  | Raises _ => installed
  end.

End Setup.

(* ===================================================================== *)
(** ** The Claude carrier: browser-first login, form filling, submission *)
(* ===================================================================== *)

Module ClaudeCarrier.
Import Booking.

(** The instruction handed to [agent.execute], named by its purpose, with
    the values the source interpolates into its text. *)
Inductive Task : Type :=
| TFindLoginButton
| TFillLoginForm (username password : string)
| TSubmitLogin
| TFillOrigin (location : string)
| TFillDestination (location : string)
| TSelectCommodity (commodity : string)
| TScrollToContainers
| TSetContainer (size containerType : string) (quantity : Z)
| TSetTransport (originStoreDoor destinationStoreDoor : bool)
| TFillRemainingFields
| TClickContinue
| TSubmitForm.

(** The selectors of the browser-first steps. *)
Inductive Selector : Type :=
| SelLogIn            (* text=Log in *)
| SelSignIn           (* text=Sign in *)
| SelLoginTestId      (* data-testid containing login *)
| SelLoginLink        (* a link whose href contains login *)
| SelAcceptCookies
| SelUsername
| SelPassword
| SelSubmit.

Inductive Action : Type :=
| PageGoto (url : string)
| PageClick (selector : Selector)
| PageFill (selector : Selector) (value : string)
| PageAct (description : string)
| PageExtract (instruction : string)
| PageScreenshot (filename : string)
| AgentExecute (task : Task)
| StagehandClose
| NewStagehand (headless : bool)   (* [new Stagehand({...})] *)
| StagehandInit
| StagehandPage                    (* reading [stagehand.page] *)
| StagehandAgent (claude : bool).  (* [stagehand.agent(...)]: with the Claude
                                      model, or without arguments *)

(** The history of a carrier, most recent event first: each action with
    whether it returned, the delays, the warning and failure log lines
    (without their pictographs). *)
Inductive Event : Type :=
| EvDo (a : Action) (returned : bool)
| EvSleep (ms : Z)
| EvWarn (text : string)
| EvFail (text : string).

(** The browser and the agent: what an action answers, and the address
    the page shows, both after a given history. *)
Record World : Type := mkWorld {
  respond : list Event -> Action -> Outcome JsVal;
  urlAfter : list Event -> string
}.

Record Carrier : Type := mkCarrier {
  baseUrl : string;
  username : string;
  password : string;
  stagehand : bool;     (* is [this.stagehand] set *)
  page : bool;          (* is [this.page] set *)
  agent : bool;         (* is [this.agent] set *)
  history : list Event
}.

Definition M (A : Type) : Type := Eff Carrier A.

Definition emit (e : Event) : M unit :=
  modifyState (fun c =>
    {| baseUrl := baseUrl c; username := username c; password := password c;
       stagehand := stagehand c; page := page c; agent := agent c;
       history := e :: history c |}).

Definition sleep (ms : Z) : M unit := emit (EvSleep ms).

Definition perform (w : World) (a : Action) : M JsVal :=
  c <- getState ;;
  match respond w (history c) a with
  | Returns v => emit (EvDo a true) ;; ret v
  | Raises e => emit (EvDo a false) ;; throw e
  end.

Definition nullError (method : string) : JsError :=
  mkError ("Cannot read properties of null (reading '" ++ method ++ "')").

(** [this.page.method(...)] *)
Definition onPage (w : World) (method : string) (a : Action) : M JsVal :=
  c <- getState ;;
  if page c then perform w a else throw (nullError method).

(** [this.agent.execute(task)] *)
Definition execute (w : World) (task : Task) : M JsVal :=
  c <- getState ;;
  if agent c then perform w (AgentExecute task) else throw (nullError "execute").

(** [v.name] *)
Definition propOf (v : JsVal) (name : string) : M JsVal :=
  match v with
  | VUndefined =>
      throw (mkError ("Cannot read properties of undefined (reading '"
                        ++ name ++ "')"))
  | VNull => throw (nullError name)
  | VObj fields => ret (lookupField name fields)
  | _ => ret VUndefined
  end.

Definition truthy (v : JsVal) : bool :=
  match v with
  | VUndefined | VNull => false
  | VBool b => b
  | VNum n => negb (n =? 0)
  | VStr s => truthyString s
  | VArr _ | VObj _ => true
  end.

(** [close()] *)
Definition close (w : World) : M unit :=
  c <- getState ;;
  if stagehand c then _ <- perform w StagehandClose ;; ret tt else ret tt.

(** [takeScreenshot(filename)] *)
Definition takeScreenshot (w : World) (filename : string) : M unit :=
  c <- getState ;;
  if page c then _ <- perform w (PageScreenshot filename) ;; ret tt else ret tt.

(** Assignment to [this.stagehand], [this.page] and [this.agent]. *)
Definition assign (sh pg ag : Carrier -> bool) : M unit :=
  modifyState (fun c =>
    {| baseUrl := baseUrl c; username := username c; password := password c;
       stagehand := sh c; page := pg c; agent := ag c; history := history c |}).

Definition agentFallbackWarning : string :=
  "Claude Computer Use model not available, using standard agent".

(** [initBrowser(headless)] *)
Definition initBrowser (w : World) (headless : bool) : M unit :=
  _ <- perform w (NewStagehand headless) ;;
  assign (fun _ => true) page agent ;;
  _ <- perform w StagehandInit ;;
  p <- perform w StagehandPage ;;
  assign stagehand (fun _ => truthy p) agent ;;
  tryCatch
    (a <- perform w (StagehandAgent true) ;;
     assign stagehand page (fun _ => truthy a))
    (fun _ =>
       emit (EvWarn agentFallbackWarning) ;;
       a <- perform w (StagehandAgent false) ;;
       assign stagehand page (fun _ => truthy a)).

Definition click (w : World) (sel : Selector) : M unit :=
  _ <- onPage w "click" (PageClick sel) ;; ret tt.

Definition fill (w : World) (sel : Selector) (value : string) : M unit :=
  _ <- onPage w "fill" (PageFill sel value) ;; ret tt.

(** [page.click(a).catch(() => page.click(b).catch(() =>
    page.click(c).catch(() => page.click(d))))] *)
Definition clickLoginLink (w : World) : M unit :=
  tryCatch (click w SelLogIn)
    (fun _ => tryCatch (click w SelSignIn)
       (fun _ => tryCatch (click w SelLoginTestId)
          (fun _ => click w SelLoginLink))).

(** The test that ends [hybridLogin]. *)
Definition onPortal (url : string) : bool :=
  (includes "maersk.com" url
   && negb (includes "accounts.maersk.com" url)
   && negb (includes "login" url))%bool.

Definition bookUrl : string := "https://www.maersk.com/book/".

(** [hybridLogin()] *)
Definition hybridLogin (w : World) : M bool :=
  tryCatch
    (c <- getState ;;
     _ <- onPage w "goto" (PageGoto (baseUrl c)) ;;
     sleep 3000 ;;
     tryCatch
       (clickLoginLink w ;; sleep 2000)
       (fun browserError =>
          _ <- execute w TFindLoginButton ;; sleep 2000) ;;
     tryCatch
       (click w SelAcceptCookies ;; sleep 1000)
       (fun cookieError => ret tt) ;;
     tryCatch
       (fill w SelUsername (username c) ;; fill w SelPassword (password c))
       (fun fillError =>
          _ <- execute w (TFillLoginForm (username c) (password c)) ;; ret tt) ;;
     tryCatch
       (click w SelSubmit)
       (fun submitError => _ <- execute w TSubmitLogin ;; ret tt) ;;
     sleep 5000 ;;
     _ <- onPage w "goto" (PageGoto bookUrl) ;;
     sleep 3000 ;;
     c' <- getState ;;
     (if page c' then ret tt else throw (nullError "url")) ;;
     let currentUrl := urlAfter w (history c') in
     if onPortal currentUrl then ret true
     else throw (mkError "Login verification failed - still appears to be on login page"))
    (fun error =>
       emit (EvWarn ("Claude login failed: " ++ message error)) ;;
       throw error).

(** [submitBookingForm()] *)
Definition submitBookingForm (w : World) : M Pipeline.SubmitResult :=
  tryCatch
    (tryCatch
       (_ <- onPage w "act" (PageAct "Continue or Submit button to proceed to rates") ;;
        ret tt)
       (fun error =>
          submitResult <- execute w TSubmitForm ;;
          _ <- propOf submitResult "message" ;;
          ret tt) ;;
     sleep 8000 ;;
     takeScreenshot w "debug_after_submit_browser_first.png" ;;
     ret {| Pipeline.submitSuccess := true |})
    (fun error =>
       emit (EvFail ("Form submission failed: " ++ message error)) ;;
       throw error).

(** [location.toString()] for a location that may be absent:
    [`${this.city}, ${this.country}`]. *)
Definition shown (o : option string) : string :=
  match o with Some s => s | None => "undefined" end.

Definition Location_toString (l : Location) : string :=
  shown (city l) ++ ", " ++ shown (country l).

(** [bookingDetails.origin.toString()] *)
Definition locationText (what : option Location) : M string :=
  match what with
  | Some l => ret (Location_toString l)
  | None => throw (mkError "Cannot read properties of undefined (reading 'toString')")
  end.

(** [bookingDetails.originTransport.type === 'SD'] *)
Definition isStoreDoor (t : option InlandTransport) : M bool :=
  match t with
  | Some tr => ret (String.eqb (transportType tr) "SD")
  | None => throw (mkError "Cannot read properties of undefined (reading 'type')")
  end.

(** An agent step whose answer is logged: [execute], then [result.message]. *)
Definition agentStep (w : World) (task : Task) : M unit :=
  result <- execute w task ;;
  _ <- propOf result "message" ;;
  ret tt.

(** Runs a method on an object of its own. *)
Definition onObject {T A} (obj : T) (method : Eff T A) : M A :=
  fun c => (fst (method obj), c).

Definition formPageWarning : string :=
  "May still be on form page - need to check continue button".

(** [fillBookingForm(bookingDetails)] *)
Definition fillBookingForm (w : World) (b : BookingDetails) : M Pipeline.FormResult :=
  tryCatch
    (onObject b fillBookingForm_guard ;;
     originText <- locationText (origin b) ;;
     agentStep w (TFillOrigin originText) ;;
     sleep 3000 ;;
     destinationText <- locationText (destination b) ;;
     agentStep w (TFillDestination destinationText) ;;
     sleep 3000 ;;
     takeScreenshot w "debug_locations_filled.png" ;;
     agentStep w (TSelectCommodity (shown (commodity b))) ;;
     sleep 2000 ;;
     takeScreenshot w "debug_after_commodity.png" ;;
     _ <- execute w TScrollToContainers ;;
     sleep 1000 ;;
     (match containers b with
      | Some (container :: _) =>
          agentStep w (TSetContainer (size container) (containerType container)
                                      (quantity container)) ;;
          sleep 1000
      | _ => ret tt
      end) ;;
     originSD <- isStoreDoor (originTransport b) ;;
     needsTransport <- (if originSD then ret true
                        else isStoreDoor (destinationTransport b)) ;;
     (if needsTransport then
        destinationSD <- isStoreDoor (destinationTransport b) ;;
        agentStep w (TSetTransport originSD destinationSD) ;;
        sleep 2000
      else ret tt) ;;
     agentStep w TFillRemainingFields ;;
     sleep 1000 ;;
     agentStep w TClickContinue ;;
     sleep 3000 ;;
     takeScreenshot w "debug_form_completed.png" ;;
     formValidation <- onPage w "extract"
       (PageExtract "Check if this form submission was successful and we're now on a rates or results page") ;;
     isOnRatesPage <- propOf formValidation "isOnRatesPage" ;;
     _ <- propOf formValidation "pageTitle" ;;
     hasRates <- propOf formValidation "hasRates" ;;
     _ <- propOf formValidation "nextAction" ;;
     if (truthy isOnRatesPage || truthy hasRates)%bool then
       ret {| Pipeline.formSuccess := true; Pipeline.canContinue := true |}
     else
       emit (EvWarn formPageWarning) ;;
       ret {| Pipeline.formSuccess := false; Pipeline.canContinue := false |})
    (fun error =>
       takeScreenshot w "error_form_filling_targeted.png" ;;
       emit (EvFail ("Targeted form filling failed: " ++ message error)) ;;
       throw error).

(** [String.prototype.toLowerCase] on code units below 256. *)
Definition lowerChar (c : ascii) : ascii :=
  let n := nat_of_ascii c in
  if ((Nat.leb 65 n && Nat.leb n 90)
      || (Nat.leb 192 n && Nat.leb n 222 && negb (Nat.eqb n 215)))%bool
  then ascii_of_nat (n + 32) else c.

Fixpoint toLowerCase (s : string) : string :=
  match s with
  | EmptyString => EmptyString
  | String c rest => String (lowerChar c) (toLowerCase rest)
  end.

Definition securityKeywords : list string :=
  ["error detected"; "2fa"; "authentication"; "credential"; "login"; "captcha"].

(** [_isCredentialOrSecurityError(error)] *)
Definition _isCredentialOrSecurityError (error : JsError) : bool :=
  let errorMessage := toLowerCase (message error) in
  (includes "error detected" errorMessage
   || includes "2fa" errorMessage
   || includes "authentication" errorMessage
   || includes "credential" errorMessage
   || includes "login" errorMessage
   || includes "captcha" errorMessage)%bool.

(** [v.name] as a value, for a [v] that is neither [undefined] nor [null]. *)
Definition field (v : JsVal) (name : string) : JsVal :=
  match v with
  | VObj fields => lookupField name fields
  | _ => VUndefined
  end.

Definition formCheck : string :=
  "Check if this form submission was successful and we're now on a rates or results page".

(** *** Reading a history *)

Definition isAgentCall (e : Event) : bool :=
  match e with EvDo (AgentExecute _) _ => true | _ => false end.

Definition isFailedBrowserStep (e : Event) : bool :=
  match e with
  | EvDo (PageClick _) false | EvDo (PageFill _ _) false | EvDo (PageAct _) false => true
  | _ => false
  end.

(** In a history (most recent first), every call of the agent comes
    directly after a browser step that failed. *)
Fixpoint agentOnlyAfterFailure (h : list Event) : bool :=
  match h with
  | [] => true
  | e :: earlier =>
      (if isAgentCall e
       then match earlier with
            | previous :: _ => isFailedBrowserStep previous
            | [] => false
            end
       else true) && agentOnlyAfterFailure earlier
  end.

Definition agentCallCount (h : list Event) : nat :=
  List.length (filter isAgentCall h).

Definition failedBrowserSteps (h : list Event) : nat :=
  List.length (filter isFailedBrowserStep h).

End ClaudeCarrier.

(* ===================================================================== *)
(** ** The Browser Use carrier: session handling and stage methods *)
(* ===================================================================== *)

Module BrowserUseCarrier.
Import Booking.

(** The task handed to [agent.run], named by its purpose, with the values
    the source interpolates into its text. *)
Inductive Task : Type :=
| TInitializeSession
| TLogin (currentUrl : JsVal) (username password : string)
| TVerifyBookingPage
| TFillForm (originText destinationText commodity size containerType : string)
            (quantity : Z) (originStoreDoor destinationStoreDoor : bool)
| TSubmit.

Inductive Action : Type :=
| Cleanup               (* [agent.browserContext.cleanup()] *)
| NewAgent              (* [new Agent(this.llm, {...})] *)
| GetCurrentUrl
| Run (task : Task).

(** Most recent event first. *)
Inductive Event : Type :=
| EvDo (a : Action) (returned : bool)
| EvWarn (text : string)
| EvFail (text : string).

Record AgentObj : Type := mkAgentObj { browserContext : bool }.

Record World : Type := mkWorld {
  respond : list Event -> Action -> Outcome JsVal;
  createdWithContext : list Event -> bool   (* has a new agent a browser context *)
}.

Record Carrier : Type := mkCarrier {
  username : string;
  password : string;
  agent : option AgentObj;
  history : list Event
}.

Definition M (A : Type) : Type := Eff Carrier A.

Definition emit (e : Event) : M unit :=
  modifyState (fun c =>
    {| username := username c; password := password c; agent := agent c;
       history := e :: history c |}).

Definition setAgent (a : option AgentObj) : M unit :=
  modifyState (fun c =>
    {| username := username c; password := password c; agent := a;
       history := history c |}).

Definition perform (w : World) (a : Action) : M JsVal :=
  c <- getState ;;
  match respond w (history c) a with
  | Returns v => emit (EvDo a true) ;; ret v
  | Raises e => emit (EvDo a false) ;; throw e
  end.

Definition nullError (method : string) : JsError :=
  mkError ("Cannot read properties of null (reading '" ++ method ++ "')").

(** [this.agent.run(task)] *)
Definition run (w : World) (task : Task) : M unit :=
  c <- getState ;;
  match agent c with
  | Some _ => _ <- perform w (Run task) ;; ret tt
  | None => throw (nullError "run")
  end.

(** [close()] *)
Definition close (w : World) : M unit :=
  c <- getState ;;
  match agent c with
  | Some a =>
      tryCatch
        ((if browserContext a then _ <- perform w Cleanup ;; ret tt else ret tt) ;;
         setAgent None)
        (fun error => emit (EvWarn ("Error closing browser: " ++ message error)))
  | None => ret tt
  end.

(** [initBrowser(headless)] *)
Definition initBrowser (w : World) (headless : bool) : M unit :=
  tryCatch
    (close w ;;
     _ <- perform w NewAgent ;;
     c <- getState ;;
     setAgent (Some {| browserContext := createdWithContext w (history c) |}) ;;
     run w TInitializeSession)
    (fun error =>
       emit (EvFail ("Failed to initialize Browser Use Agent: " ++ message error)) ;;
       throw error).

(** [hybridLogin()] *)
Definition hybridLogin (w : World) : M bool :=
  tryCatch
    (c <- getState ;;
     url <- (match agent c with
             | Some _ => perform w GetCurrentUrl
             | None => throw (nullError "getCurrentUrl")
             end) ;;
     run w (TLogin url (username c) (password c)) ;;
     ret true)
    (fun error =>
       emit (EvWarn ("Browser Use login failed: " ++ message error)) ;;
       throw error).

(** [verifyBookingPage()] *)
Definition verifyBookingPage (w : World) : M Pipeline.PageAnalysis :=
  tryCatch
    (run w TVerifyBookingPage ;;
     ret {| Pipeline.hasBookingForm := true; Pipeline.hasLocationFields := true;
            Pipeline.hasContinueButton := true |})
    (fun error =>
       emit (EvFail ("Booking page verification failed: " ++ message error)) ;;
       throw error).

Definition onObject {T A} (obj : T) (method : Eff T A) : M A :=
  fun c => (fst (method obj), c).

Definition locationText (what : option Location) : M string :=
  match what with
  | Some l => ret (ClaudeCarrier.Location_toString l)
  | None => throw (mkError "Cannot read properties of undefined (reading 'toString')")
  end.

Definition isStoreDoor (t : option InlandTransport) : M bool :=
  match t with
  | Some tr => ret (String.eqb (transportType tr) "SD")
  | None => throw (mkError "Cannot read properties of undefined (reading 'type')")
  end.

(** [fillBookingForm(bookingDetails)] *)
Definition fillBookingForm (w : World) (b : BookingDetails) : M Pipeline.FormResult :=
  tryCatch
    (onObject b fillBookingForm_guard ;;
     let container :=
       match containers b with
       | Some (first :: _) => (size first, containerType first, quantity first)
       | _ => ("20", "Dry", 1)
       end in
     originText <- locationText (origin b) ;;
     destinationText <- locationText (destination b) ;;
     originSD <- isStoreDoor (originTransport b) ;;
     destinationSD <- isStoreDoor (destinationTransport b) ;;
     run w (TFillForm originText destinationText (ClaudeCarrier.shown (commodity b))
                      (fst (fst container)) (snd (fst container)) (snd container)
                      originSD destinationSD) ;;
     ret {| Pipeline.formSuccess := true; Pipeline.canContinue := true |})
    (fun error =>
       emit (EvFail ("Browser Use form filling failed: " ++ message error)) ;;
       throw error).

(** [submitBookingForm()] *)
Definition submitBookingForm (w : World) : M Pipeline.SubmitResult :=
  tryCatch
    (run w TSubmit ;; ret {| Pipeline.submitSuccess := true |})
    (fun error =>
       emit (EvFail ("Form submission failed: " ++ message error)) ;;
       throw error).

Definition isCleanup (e : Event) : bool :=
  match e with EvDo Cleanup _ => true | _ => false end.

Definition isRun (e : Event) : bool :=
  match e with EvDo (Run _) _ => true | _ => false end.

Definition count (p : Event -> bool) (h : list Event) : nat :=
  List.length (filter p h).

End BrowserUseCarrier.

(* ===================================================================== *)
(** ** Properties of the rate-limit helper *)
(* ===================================================================== *)

Module RateLimitFacts.
Import RateLimit.

Lemma prefix_app (n rest : string) : String.prefix n (n ++ rest) = true.
Proof.
  induction n as [|c n IH]; cbn.
  - destruct rest; reflexivity.
  - destruct (ascii_dec c c) as [_|ne]; [exact IH | now destruct ne].
Qed.

Lemma prefix_split (n h : string) :
  String.prefix n h = true -> exists rest, h = n ++ rest.
Proof.
  revert h; induction n as [|c n IH]; intros h H.
  - exists h; reflexivity.
  - destruct h as [|d h]; cbn in H; [discriminate|].
    destruct (ascii_dec c d) as [->|]; [|discriminate].
    destruct (IH h H) as [rest ->]. exists rest; reflexivity.
Qed.

(** [includes] is substring containment. *)
Lemma includes_spec (n h : string) :
  includes n h = true <-> exists before rest, h = before ++ n ++ rest.
Proof.
  split.
  - induction h as [|c h IH]; cbn [includes].
    + destruct (String.prefix n "") eqn:E; [|intros; discriminate].
      intros _. apply prefix_split in E. destruct E as [rest E].
      exists "", rest. exact E.
    + destruct (String.prefix n (String c h)) eqn:E.
      * intros _. apply prefix_split in E. destruct E as [rest E].
        exists "", rest. exact E.
      * intros H. destruct (IH H) as (b & r & ->).
        exists (String c b), r. reflexivity.
  - intros (b & r & ->). induction b as [|c b IH].
    + cbn [append]. pose proof (prefix_app n r) as P.
      destruct (n ++ r); cbn [includes]; now rewrite P.
    + cbn [append includes]. rewrite IH.
      now destruct (String.prefix n (String c (b ++ n ++ r))).
Qed.

(** Unfolds the helper down to its branches. *)
Ltac run_helper :=
  unfold callWithRateLimit, _claudeCallWithRateLimit, _agentCallWithRateLimit,
    tryCatch, callAgent, readThis, assignLastClaudeCall, emit,
    bind, getState, ret, throw;
  cbn [this trace lastClaudeCall claudeRateLimit fst snd].

(** The whole effect of a denied call. *)
Lemma denied_run (h : Helper) (agent : Agent) (now : Z) (task fallback : string)
    (m : Machine) :
  now - lastClaudeCall (this m) < claudeRateLimit (this m) ->
  callWithRateLimit h agent now task fallback m
  = (Normal {| resultMessage := fallback; rateLimited := true |},
     {| this := this m;
        trace := trace m ++
                 [EvWarning (rateLimitWarning (helperName h)
                    (claudeRateLimit (this m) - (now - lastClaudeCall (this m))))] |}).
Proof.
  intros Hearly. apply Z.ltb_lt in Hearly.
  destruct h; run_helper; rewrite Hearly; reflexivity.
Qed.

Lemma agentCalls_warning (t : list Event) (text : string) :
  agentCalls (t ++ [EvWarning text]) = agentCalls t.
Proof. unfold agentCalls. rewrite filter_app. cbn. apply app_nil_r. Qed.

(** C1.  For either helper: when less than [claudeRateLimit] has elapsed
    since [lastClaudeCall], the call returns
    [{message: fallbackMessage, rateLimited: true}] at once; the only
    thing it does is log a warning, and the external agent is not called. *)
Theorem denied_call_returns_fallback
    (h : Helper) (agent : Agent) (now : Z) (task fallback : string) (m : Machine)
    (Hearly : now - lastClaudeCall (this m) < claudeRateLimit (this m)) :
  exists text m',
    callWithRateLimit h agent now task fallback m
      = (Normal {| resultMessage := fallback; rateLimited := true |}, m')
    /\ trace m' = (trace m ++ [EvWarning text])%list
    /\ agentCalls (trace m') = agentCalls (trace m).
Proof.
  rewrite (denied_run h agent now task fallback m Hearly).
  eexists; eexists. split; [reflexivity|]. cbn [trace].
  split; [reflexivity | apply agentCalls_warning].
Qed.

Lemma denied_call_returns_fallback_witness :
  exists text m',
    callWithRateLimit ClaudeHelper (fun _ => Replied "done") 30000 "task" "skipped"
        {| this := newCarrier; trace := [] |}
      = (Normal {| resultMessage := "skipped"; rateLimited := true |}, m')
    /\ trace m' = ([] ++ [EvWarning text])%list
    /\ agentCalls (trace m') = agentCalls [].
Proof.
  apply (denied_call_returns_fallback ClaudeHelper (fun _ => Replied "done")
           30000 "task" "skipped" {| this := newCarrier; trace := [] |}).
  cbn. lia.
Defined.

(** C9.  A denied call leaves the rate-limit state as it was: the carrier
    fields are unchanged, nothing is assigned to [lastClaudeCall], the
    agent is not called, and the instants at which a later call is denied
    are the same as before. *)
Theorem denied_call_leaves_state
    (h : Helper) (agent : Agent) (now : Z) (task fallback : string) (m : Machine)
    (Hearly : now - lastClaudeCall (this m) < claudeRateLimit (this m)) :
  let m' := snd (callWithRateLimit h agent now task fallback m) in
  this m' = this m
  /\ (exists text, trace m' = (trace m ++ [EvWarning text])%list)
  /\ (forall later, denied (this m') later = denied (this m) later).
Proof.
  cbn zeta. rewrite (denied_run h agent now task fallback m Hearly).
  cbn [snd this trace]. split; [reflexivity|].
  split; [eexists; reflexivity | reflexivity].
Qed.

Lemma denied_call_leaves_state_witness :
  let m := {| this := {| lastClaudeCall := 100000; claudeRateLimit := 60000 |};
              trace := [] |} in
  let m' := snd (callWithRateLimit AgentHelper (fun _ => Failed (mkError "429"))
                   159999 "task" "skipped" m) in
  this m' = this m
  /\ (exists text, trace m' = (trace m ++ [EvWarning text])%list)
  /\ (forall later, denied (this m') later = denied (this m) later).
Proof.
  apply (denied_call_leaves_state AgentHelper (fun _ => Failed (mkError "429"))
           159999 "task" "skipped"
           {| this := {| lastClaudeCall := 100000; claudeRateLimit := 60000 |};
              trace := [] |}).
  cbn. lia.
Defined.

(** C2.  For either helper: when at least [claudeRateLimit] has elapsed
    since [lastClaudeCall] the call is allowed; its first action is the
    assignment [lastClaudeCall = now], and only then is the agent called,
    once.  Whatever the agent does, the timestamp has been moved: it ends
    at [now] when the agent answers or fails without a rate-limit
    signature, and at [now + claudeRateLimit] when it fails with one. *)
Theorem allowed_call_records_timestamp_first
    (h : Helper) (agent : Agent) (now : Z) (task fallback : string) (m : Machine)
    (Hlate : claudeRateLimit (this m) <= now - lastClaudeCall (this m)) :
  let m' := snd (callWithRateLimit h agent now task fallback m) in
  denied (this m) now = false
  /\ (exists rest,
        trace m' = (trace m ++ EvAssignLastClaudeCall now
                              :: EvAgentCall task :: rest)%list
        /\ agentCalls rest = [])
  /\ claudeRateLimit (this m') = claudeRateLimit (this m)
  /\ lastClaudeCall (this m')
     = match agent task with
       | Replied _ => now
       | Failed e => if hasRateLimitSignature e
                     then now + claudeRateLimit (this m)
                     else now
       end.
Proof.
  assert (Hd : (now - lastClaudeCall (this m) <? claudeRateLimit (this m)) = false)
    by (apply Z.ltb_ge; exact Hlate).
  destruct h; run_helper; rewrite Hd; cbn;
    (split; [exact Hd|]);
    destruct (agent task) as [msg|e]; cbn;
    try destruct (hasRateLimitSignature e); cbn;
    repeat rewrite <- app_assoc; cbn;
    (split; [eexists; split; [reflexivity|reflexivity]|]);
    split; reflexivity.
Qed.

Lemma allowed_call_records_timestamp_first_witness :
  let agent : Agent := fun _ => Failed (mkError "connection reset") in
  let m := {| this := newCarrier; trace := [] |} in
  let m' := snd (callWithRateLimit ClaudeHelper agent 60000 "task" "skipped" m) in
  denied (this m) 60000 = false
  /\ (exists rest,
        trace m' = (trace m ++ EvAssignLastClaudeCall 60000
                              :: EvAgentCall "task" :: rest)%list
        /\ agentCalls rest = [])
  /\ claudeRateLimit (this m') = claudeRateLimit (this m)
  /\ lastClaudeCall (this m')
     = match agent "task" with
       | Replied _ => 60000
       | Failed e => if hasRateLimitSignature e
                     then 60000 + claudeRateLimit (this m)
                     else 60000
       end.
Proof.
  apply (allowed_call_records_timestamp_first ClaudeHelper
           (fun _ => Failed (mkError "connection reset")) 60000 "task" "skipped"
           {| this := newCarrier; trace := [] |}).
  cbn. lia.
Defined.

(** C3.  An allowed call whose agent call fails.  With a rate-limit
    signature ('429' or 'rate_limit' in the message) the helper sets
    [lastClaudeCall = now + claudeRateLimit], returns the fallback object
    instead of throwing, and every later call made before
    [now + 2 * claudeRateLimit] is denied without reaching the agent.
    Without the signature the error is thrown again as it is. *)
Theorem rate_limit_error_extends_cooldown
    (h : Helper) (agent : Agent) (now : Z) (task fallback : string) (m : Machine)
    (e : JsError)
    (Hlate : claudeRateLimit (this m) <= now - lastClaudeCall (this m))
    (Hfail : agent task = Failed e) :
  let run := callWithRateLimit h agent now task fallback m in
  (hasRateLimitSignature e = true ->
     fst run = Normal {| resultMessage := fallback; rateLimited := true |}
     /\ lastClaudeCall (this (snd run)) = now + claudeRateLimit (this m)
     /\ forall h' agent' later task' fallback',
          later < now + 2 * claudeRateLimit (this m) ->
          let again := callWithRateLimit h' agent' later task' fallback' (snd run) in
          fst again = Normal {| resultMessage := fallback'; rateLimited := true |}
          /\ agentCalls (trace (snd again)) = agentCalls (trace (snd run)))
  /\ (hasRateLimitSignature e = false -> fst run = Throws e).
Proof.
  assert (Hd : (now - lastClaudeCall (this m) <? claudeRateLimit (this m)) = false)
    by (apply Z.ltb_ge; exact Hlate).
  split; intros Hsig.
  - assert (Hrun : fst (callWithRateLimit h agent now task fallback m)
                   = Normal {| resultMessage := fallback; rateLimited := true |}
                   /\ this (snd (callWithRateLimit h agent now task fallback m))
                      = {| lastClaudeCall := now + claudeRateLimit (this m);
                           claudeRateLimit := claudeRateLimit (this m) |}).
    { destruct h; run_helper; rewrite Hd; cbn; rewrite Hfail; cbn;
        rewrite Hsig; cbn; split; reflexivity. }
    destruct Hrun as [Hres Hthis].
    split; [exact Hres|]. split; [now rewrite Hthis|].
    intros h' agent' later task' fallback' Hsoon.
    cbn zeta. rewrite denied_run by (rewrite Hthis; cbn; lia).
    cbn [fst snd trace]. split; [reflexivity | apply agentCalls_warning].
  - destruct h; run_helper; rewrite Hd; cbn; rewrite Hfail; cbn;
      rewrite Hsig; reflexivity.
Qed.

Lemma rate_limit_error_extends_cooldown_witness :
  (let run := callWithRateLimit ClaudeHelper
                (fun _ => Failed (mkError "HTTP 429 Too Many Requests"))
                60000 "task" "skipped" {| this := newCarrier; trace := [] |} in
   fst run = Normal {| resultMessage := "skipped"; rateLimited := true |}
   /\ lastClaudeCall (this (snd run)) = 120000
   /\ fst (callWithRateLimit AgentHelper (fun _ => Replied "ok") 179999
             "next" "skipped too" (snd run))
      = Normal {| resultMessage := "skipped too"; rateLimited := true |})
  /\ fst (callWithRateLimit AgentHelper (fun _ => Failed (mkError "socket hang up"))
            60000 "task" "skipped" {| this := newCarrier; trace := [] |})
     = Throws (mkError "socket hang up").
Proof.
  split.
  - destruct (rate_limit_error_extends_cooldown ClaudeHelper
                (fun _ => Failed (mkError "HTTP 429 Too Many Requests"))
                60000 "task" "skipped" {| this := newCarrier; trace := [] |}
                (mkError "HTTP 429 Too Many Requests")
                ltac:(cbn; lia) eq_refl) as [Hsig _].
    destruct (Hsig eq_refl) as (Hres & Hlast & Hnext).
    split; [exact Hres|]. split; [exact Hlast|].
    exact (proj1 (Hnext AgentHelper (fun _ => Replied "ok") 179999
                    "next" "skipped too" ltac:(cbn; lia))).
  - exact (proj2 (rate_limit_error_extends_cooldown AgentHelper
                    (fun _ => Failed (mkError "socket hang up"))
                    60000 "task" "skipped" {| this := newCarrier; trace := [] |}
                    (mkError "socket hang up") ltac:(cbn; lia) eq_refl) eq_refl).
Defined.

(** The signature test is substring containment of '429' or 'rate_limit'
    in the error message. *)
Lemma hasRateLimitSignature_spec (e : JsError) :
  hasRateLimitSignature e = true
  <-> (exists a b, message e = a ++ "429" ++ b)
      \/ (exists a b, message e = a ++ "rate_limit" ++ b).
Proof.
  unfold hasRateLimitSignature. rewrite orb_true_iff, !includes_spec. tauto.
Qed.

End RateLimitFacts.

(* ===================================================================== *)
(** ** Properties of the booking model *)
(* ===================================================================== *)

Module BookingFacts.
Import Booking.

Lemma pushIf_nil (cond : bool) (text : string) (errors : list string) :
  pushIf cond text errors = [] <-> cond = false /\ errors = [].
Proof.
  unfold pushIf. destruct cond.
  - split; [|intros [H _]; discriminate].
    intros H. destruct errors; discriminate.
  - tauto.
Qed.

Lemma locationMissing_false (loc : option Location) :
  locationMissing loc = false <-> hasCityAndCountry loc.
Proof.
  unfold locationMissing, hasCityAndCountry. destruct loc as [l|].
  - rewrite orb_false_iff, !negb_false_iff. split.
    + intros [H1 H2]. exists l. auto.
    + intros (l' & E & H1 & H2). injection E as <-. auto.
  - split; [discriminate|]. intros (l' & E & _). discriminate.
Qed.

Lemma containersMissing_false (cs : option (list Container)) :
  containersMissing cs = false <-> exists l, cs = Some l /\ l <> [].
Proof.
  unfold containersMissing. destruct cs as [l|].
  - destruct l as [|c l]; cbn.
    + split; [discriminate|]. intros (l' & E & N). injection E as <-. now destruct N.
    + split; [|reflexivity]. intros _. exists (c :: l). split; [reflexivity|discriminate].
  - split; [discriminate|]. intros (l' & E & _). discriminate.
Qed.

Lemma commodityMissing_false (c : option string) :
  commodityMissing c = false <-> nonBlank c.
Proof.
  unfold commodityMissing, nonBlank. destruct c as [s|].
  - rewrite orb_false_iff, negb_false_iff. split.
    + intros [_ H]. exists s. split; [reflexivity|].
      intros E. rewrite E in H. discriminate.
    + intros (s' & E & N). injection E as <-. split.
      * destruct s; [now destruct N | reflexivity].
      * apply String.eqb_neq. exact N.
  - split; [discriminate|]. intros (s' & E & _). discriminate.
Qed.

Lemma readyDateMissing_false (d : option Z) :
  readyDateMissing d = false <-> d <> None.
Proof. destruct d; cbn; split; congruence. Qed.

(** What [trim] leaves empty: the strings made of white space only. *)
Lemma trimEnd_empty (s : string) :
  trimEnd s = "" <-> forall c, In c (list_ascii_of_string s) -> isTrimmable c = true.
Proof.
  induction s as [|a s IH]; cbn.
  - split; [intros _ c []|reflexivity].
  - destruct (trimEnd s) eqn:E.
    + destruct (isTrimmable a) eqn:Ta.
      * split; [|reflexivity]. intros _ c [<-|Hc]; [exact Ta|].
        now apply IH.
      * split; [discriminate|]. intros H. rewrite H in Ta by now left. discriminate.
    + split; [discriminate|]. intros H.
      assert (F : String a0 s0 = "") by (apply IH; intros c Hc; apply H; now right).
      discriminate.
Qed.

Lemma trim_empty (s : string) :
  trim s = "" <-> forall c, In c (list_ascii_of_string s) -> isTrimmable c = true.
Proof.
  unfold trim. induction s as [|a s IH]; cbn [trimStart].
  - apply trimEnd_empty.
  - destruct (isTrimmable a) eqn:Ta.
    + rewrite IH. cbn. split.
      * intros H c [<-|Hc]; auto.
      * intros H c Hc. apply H. now right.
    + rewrite trimEnd_empty. reflexivity.
Qed.

(** C10.  [validate] returns the empty list exactly when origin and
    destination each have a truthy city and country, there is at least one
    container, the commodity is not blank once trimmed and the ready date is
    set; it leaves the booking as it was.  The sample booking passes for
    every reading of the clock, so the guard that opens [fillBookingForm]
    does not throw for it. *)
Theorem validate_accepts_complete_bookings :
  (forall b : BookingDetails,
     exists errors,
       validate b = (Normal errors, b)
       /\ (errors = [] <->
             hasCityAndCountry (origin b)
             /\ hasCityAndCountry (destination b)
             /\ (exists l, containers b = Some l /\ l <> [])
             /\ nonBlank (commodity b)
             /\ readyDate b <> None))
  /\ (forall now : Z,
        validate (createSampleBooking now) = (Normal [], createSampleBooking now)
        /\ fillBookingForm_guard (createSampleBooking now)
           = (Normal tt, createSampleBooking now)).
Proof.
  split.
  - intros b. eexists. split; [reflexivity|].
    rewrite !pushIf_nil.
    rewrite locationMissing_false, locationMissing_false,
      containersMissing_false, commodityMissing_false, readyDateMissing_false.
    tauto.
  - intros now. split; reflexivity.
Qed.

End BookingFacts.

(* ===================================================================== *)
(** ** Properties of the login retry loop *)
(* ===================================================================== *)

Module LoginFacts.
Import Pipeline.

Section AlwaysFailing.

Variable label : string.
Variable errs : nat -> JsError.
Variable maxAttempts : nat.

(** One attempt that throws: a delay and another round when attempts
    remain, the same error thrown again otherwise. *)
Lemma failing_attempt (attempt : nat) (s : St) :
  loginAttempt label (alwaysThrows errs) maxAttempts attempt s
  = if Nat.ltb attempt maxAttempts then
      (Normal false,
       {| trace := trace s ++
                   [ EvCall CHybridLogin false;
                     EvWarn (label ++ " login attempt " ++ showNat attempt
                               ++ " failed: " ++ message (errs attempt));
                     EvSleep 3000 ];
          carrier := carrier s |})
    else
      (Throws (errs attempt),
       {| trace := trace s ++
                   [ EvCall CHybridLogin false;
                     EvWarn (label ++ " login attempt " ++ showNat attempt
                               ++ " failed: " ++ message (errs attempt));
                     EvFail ("Maximum " ++ label ++ " login attempts reached.") ];
          carrier := carrier s |}).
Proof.
  unfold loginAttempt, alwaysThrows, tryCatch, call, sleep, emit, modifyState,
    bind, ret, throw.
  cbn [trace carrier fst snd].
  destruct (Nat.ltb attempt maxAttempts); cbn [trace carrier];
    rewrite <- !app_assoc; reflexivity.
Qed.

Lemma failing_loop (remaining : nat) :
  forall (attempt : nat) (s : St),
    (1 <= remaining)%nat ->
    (attempt + remaining = maxAttempts + 1)%nat ->
    loginLoopFrom label (alwaysThrows errs) maxAttempts remaining attempt s
    = (Throws (errs maxAttempts),
       {| trace := trace s ++ exhaustedLoginTrace label errs remaining attempt;
          carrier := carrier s |}).
Proof.
  induction remaining as [|r IH]; intros attempt s Hpos Hsum; [lia|].
  cbn [loginLoopFrom]. unfold bind at 1. rewrite failing_attempt.
  destruct r as [|r'].
  - assert (attempt = maxAttempts) by lia. subst attempt.
    rewrite Nat.ltb_irrefl. reflexivity.
  - assert (Hlt : Nat.ltb attempt maxAttempts = true) by (apply Nat.ltb_lt; lia).
    rewrite Hlt. rewrite IH by lia.
    cbn [trace carrier exhaustedLoginTrace]. rewrite <- app_assoc. reflexivity.
Qed.

Lemma exhausted_attempts (remaining attempt : nat) :
  attemptsAndSleeps (exhaustedLoginTrace label errs remaining attempt)
  = attemptsSeparatedBy 3000 remaining.
Proof.
  revert attempt. induction remaining as [|r IH]; intros attempt; [reflexivity|].
  destruct r as [|r']; [reflexivity|].
  change (attemptsAndSleeps (exhaustedLoginTrace label errs (S (S r')) attempt))
    with (None :: Some 3000
            :: attemptsAndSleeps (exhaustedLoginTrace label errs (S r') (S attempt))).
  rewrite IH. reflexivity.
Qed.

Lemma exhausted_count (remaining attempt : nat) :
  count isLoginAttempt (exhaustedLoginTrace label errs remaining attempt) = remaining.
Proof.
  revert attempt. induction remaining as [|r IH]; intros attempt; [reflexivity|].
  destruct r as [|r']; [reflexivity|].
  change (count isLoginAttempt (exhaustedLoginTrace label errs (S (S r')) attempt))
    with (S (count isLoginAttempt (exhaustedLoginTrace label errs (S r') (S attempt)))).
  now rewrite IH.
Qed.

Lemma exhausted_sleeps (remaining attempt : nat) :
  sleeps (exhaustedLoginTrace label errs remaining attempt)
  = repeat 3000 (remaining - 1).
Proof.
  revert attempt. induction remaining as [|r IH]; intros attempt; [reflexivity|].
  destruct r as [|r']; [reflexivity|].
  change (sleeps (exhaustedLoginTrace label errs (S (S r')) attempt))
    with (3000 :: sleeps (exhaustedLoginTrace label errs (S r') (S attempt))).
  rewrite IH. cbn. now rewrite Nat.sub_0_r.
Qed.

(** C4.  When every attempt throws, the login loop with [maxAttempts = N]
    (N at least 1; the scripts use 2) calls [hybridLogin] exactly N times,
    sleeps the fixed 3000 ms between consecutive attempts and nowhere else,
    and ends by throwing the error of the N-th attempt. *)
Theorem login_loop_exhausts_attempts (s : St) (Hpos : (1 <= maxAttempts)%nat) :
  let run := loginLoop label (alwaysThrows errs) maxAttempts s in
  fst run = Throws (errs maxAttempts)
  /\ exists added,
       trace (snd run) = (trace s ++ added)%list
       /\ count isLoginAttempt added = maxAttempts
       /\ attemptsAndSleeps added = attemptsSeparatedBy 3000 maxAttempts
       /\ sleeps added = repeat 3000 (maxAttempts - 1).
Proof.
  cbn zeta. unfold loginLoop. rewrite failing_loop by lia.
  split; [reflexivity|].
  exists (exhaustedLoginTrace label errs maxAttempts 1). cbn [snd trace].
  split; [reflexivity|].
  split; [apply exhausted_count|].
  split; [apply exhausted_attempts | apply exhausted_sleeps].
Qed.

End AlwaysFailing.

Lemma login_loop_exhausts_attempts_witness :
  let run := loginLoop "Claude" (alwaysThrows (fun _ => mkError "navigation timeout"))
               maxLoginAttempts initial in
  fst run = Throws (mkError "navigation timeout")
  /\ exists added,
       trace (snd run) = (trace initial ++ added)%list
       /\ count isLoginAttempt added = 2%nat
       /\ attemptsAndSleeps added = [None; Some 3000; None]
       /\ sleeps added = [3000].
Proof.
  apply (login_loop_exhausts_attempts "Claude"
           (fun _ => mkError "navigation timeout") maxLoginAttempts initial).
  unfold maxLoginAttempts. lia.
Defined.

End LoginFacts.

(* ===================================================================== *)
(** ** Invariants of the extraction pipeline *)
(* ===================================================================== *)

Module PipelineInvariants.
Import Pipeline.

Section Rules.

Variable I : St -> Prop.

Lemma sound_ret {A} (Q : A -> Prop) (a : A) : Q a -> sound I Q (ret a).
Proof.
  intros Ha s Hs. cbn. split; [exact Hs|]. split; [|discriminate].
  intros a' E. now injection E as <-.
Qed.

Lemma sound_throw {A} (Q : A -> Prop) (e : JsError) : sound I Q (throw e).
Proof. intros s Hs. cbn. repeat split; [exact Hs | discriminate | discriminate]. Qed.

Lemma sound_bind {A B} (P : A -> Prop) (Q : B -> Prop) (m : M A) (k : A -> M B) :
  sound I P m -> (forall a, P a -> sound I Q (k a)) -> sound I Q (bind m k).
Proof.
  intros Hm Hk s Hs. unfold bind. destruct (Hm s Hs) as (Hi & Hv & Hx).
  destruct (m s) as [[a|e|n] s']; cbn in *.
  - exact (Hk a (Hv a eq_refl) s' Hi).
  - repeat split; [exact Hi | discriminate | discriminate].
  - now destruct (Hx n).
Qed.

Lemma sound_tryCatch {A} (Q : A -> Prop) (body : M A) (handler : JsError -> M A) :
  sound I Q body -> (forall e, sound I Q (handler e)) -> sound I Q (tryCatch body handler).
Proof.
  intros Hb Hh s Hs. unfold tryCatch. destruct (Hb s Hs) as (Hi & Hv & Hx).
  destruct (body s) as [[a|e|n] s']; cbn in *.
  - repeat split; [exact Hi | exact Hv | discriminate].
  - exact (Hh e s' Hi).
  - now destruct (Hx n).
Qed.

Lemma sound_weaken {A} (P Q : A -> Prop) (m : M A) :
  sound I P m -> (forall a, P a -> Q a) -> sound I Q m.
Proof.
  intros Hm HPQ s Hs. destruct (Hm s Hs) as (Hi & Hv & Hx).
  repeat split; [exact Hi | intros a E; exact (HPQ a (Hv a E)) | exact Hx].
Qed.

Lemma sound_modify (f : St -> St) :
  (forall s, I s -> I (f s)) -> sound I (fun _ => True) (modifyState f).
Proof.
  intros Hf s Hs. cbn. repeat split; [exact (Hf s Hs) | discriminate].
Qed.

(** A computation that reads the state and does nothing else. *)
Lemma sound_reader {A} (Q : A -> Prop) (f : St -> A) :
  (forall s, Q (f s)) -> sound I Q (s <- getState ;; ret (f s)).
Proof.
  intros HQ s Hs. cbn. split; [exact Hs|]. split; [|discriminate].
  intros a E. injection E as <-. apply HQ.
Qed.

Lemma sound_getCarrier : sound I (fun _ => True) getCarrier.
Proof. apply (sound_reader (fun _ => True) carrier). intros; exact Logic.I. Qed.

Lemma sound_dateNow (env : Env) : sound I (fun _ => True) (dateNow env).
Proof.
  apply (sound_reader (fun _ => True) (fun s => clock env (List.length (trace s)))).
  intros; exact Logic.I.
Qed.

Lemma sound_isoNow (env : Env) :
  sound I (fun stamp => exists t, stamp = toISOString env t) (isoNow env).
Proof.
  intros s Hs. cbn. split; [exact Hs|]. split; [|discriminate].
  intros a E. injection E as <-. eexists; reflexivity.
Qed.

Lemma sound_prop (v : JsVal) (name : string) : sound I (fun _ => True) (prop v name).
Proof.
  intros s Hs. destruct v; cbn; repeat split; try exact Hs; discriminate.
Qed.

Lemma sound_onObject {T A} (obj : T) (method : Eff T A) :
  (forall n, fst (method obj) <> Exits n) ->
  sound I (fun _ => True) (onObject obj method).
Proof.
  intros Hx s Hs. unfold onObject. cbn. repeat split; [exact Hs | apply Hx].
Qed.

(** From here on the invariant is one that benign events and changes of
    the page flag cannot break. *)
Hypothesis I_benign :
  forall e s, benign e = true -> I s ->
    I {| trace := trace s ++ [e]; carrier := carrier s |}.
Hypothesis I_carrier :
  forall s c, isSome c = isSome (carrier s) -> I s ->
    I {| trace := trace s; carrier := c |}.
Hypothesis I_constructed :
  forall s c, I s ->
    I {| trace := trace s ++ [EvCall CNewCarrier true]; carrier := Some c |}.

Lemma sound_emit (e : Event) : benign e = true -> sound I (fun _ => True) (emit e).
Proof. intros He. apply sound_modify. intros s Hs. now apply I_benign. Qed.

Lemma sound_call {A} (c : Call) (o : Outcome A) :
  (forall b, benign (EvCall c b) = true) -> sound I (fun _ => True) (call c o).
Proof.
  intros Hc. destruct o as [a|e]; unfold call.
  - eapply sound_bind; [apply sound_emit, Hc|].
    intros _ _. now apply sound_ret.
  - eapply sound_bind; [apply sound_emit, Hc|].
    intros _ _. apply sound_throw.
Qed.

Lemma sound_sleep (ms : Z) : sound I (fun _ => True) (sleep ms).
Proof. now apply sound_emit. Qed.

Lemma sound_newMaerskCarrier (env : Env) :
  sound I (fun _ => True) (newMaerskCarrier env).
Proof.
  unfold newMaerskCarrier.
  destruct (_ || _)%bool.
  - eapply sound_bind; [now apply sound_emit|]. intros _ _. apply sound_throw.
  - destruct (negb _).
    + eapply sound_bind; [now apply sound_emit|]. intros _ _. apply sound_throw.
    + intros s Hs. cbn. repeat split; [now apply I_constructed | discriminate].
Qed.

Lemma sound_initBrowser (env : Env) (headless : bool) :
  sound I (fun _ => True) (initBrowser env headless).
Proof.
  unfold initBrowser.
  assert (Hset : forall s, I s ->
            I {| trace := trace s;
                 carrier := match carrier s with
                            | Some obj => Some {| baseUrl := baseUrl obj;
                                                  page := initBrowser_sets_page env |}
                            | None => None
                            end |}).
  { intros s Hs. apply I_carrier; [|exact Hs]. now destruct (carrier s). }
  intros s Hs. specialize (Hset s Hs).
  destruct (initBrowser_outcome env) as [[]|e]; cbn;
    (split; [exact (I_benign (EvCall (CInitBrowser headless) _) _ eq_refl Hset)
            | split; [intros; exact Logic.I | discriminate]]).
Qed.

Lemma sound_pageUrl (env : Env) : sound I (fun _ => True) (pageUrl env).
Proof.
  unfold pageUrl. eapply sound_bind; [apply sound_getCarrier|].
  intros [obj|] _; [destruct (page obj)|]; try apply sound_throw.
  now apply sound_call.
Qed.

Lemma sound_takeScreenshot (env : Env) (filename : string) :
  sound I (fun _ => True) (takeScreenshot env filename).
Proof.
  unfold takeScreenshot. eapply sound_bind; [apply sound_getCarrier|].
  intros [obj|] _; [destruct (page obj)|]; try now apply sound_ret.
  now apply sound_call.
Qed.

Lemma sound_loginAttempt (label : string) (f : nat -> Outcome bool) (n k : nat) :
  sound I (fun _ => True) (loginAttempt label f n k).
Proof.
  unfold loginAttempt. apply sound_tryCatch.
  - eapply sound_bind; [now apply (sound_call CHybridLogin)|].
    intros ok _. eapply sound_bind with (P := fun _ => True).
    + destruct ok; [now apply sound_ret | now apply sound_emit].
    + intros _ _. now apply sound_ret.
  - intros e. eapply sound_bind; [now apply sound_emit|]. intros _ _.
    destruct (Nat.ltb k n).
    + eapply sound_bind; [apply sound_sleep|]. intros _ _. now apply sound_ret.
    + eapply sound_bind; [now apply sound_emit|]. intros _ _. apply sound_throw.
Qed.

Lemma sound_loginLoopFrom (label : string) (f : nat -> Outcome bool) (n r : nat) :
  forall k, sound I (fun _ => True) (loginLoopFrom label f n r k).
Proof.
  induction r as [|r IH]; intros k; cbn [loginLoopFrom].
  - now apply sound_ret.
  - eapply sound_bind; [apply sound_loginAttempt|].
    intros [|] _; [now apply sound_ret | apply IH].
Qed.

Lemma guard_never_exits (b : Booking.BookingDetails) (n : Z) :
  fst (Booking.fillBookingForm_guard b) <> Exits n.
Proof.
  unfold Booking.fillBookingForm_guard, Booking.validate, bind, getState, ret.
  cbn. match goal with |- context [if ?c then _ else _] => destruct c end;
    cbn; discriminate.
Qed.

Lemma sound_fillBookingForm (env : Env) (b : Booking.BookingDetails) :
  sound I (fun _ => True) (fillBookingForm env b).
Proof.
  unfold fillBookingForm. apply sound_tryCatch.
  - eapply sound_bind; [apply sound_onObject, guard_never_exits|].
    intros _ _. now apply sound_call.
  - intros e. eapply sound_bind; [apply sound_takeScreenshot|]. intros _ _.
    eapply sound_bind; [now apply sound_emit|]. intros _ _. apply sound_throw.
Qed.

Lemma sound_extractRates (env : Env) :
  sound I (isRateResults env) (extractRates env).
Proof.
  unfold extractRates. apply sound_tryCatch.
  - eapply sound_bind; [now apply (sound_call CAgentExecute)|]. intros analysis _.
    eapply sound_bind; [now apply (sound_call CPageExtract)|]. intros rates _.
    eapply sound_bind; [apply sound_isoNow|]. intros stamp [t ->].
    eapply sound_bind; [apply sound_prop|]. intros msg _.
    eapply sound_bind; [apply sound_prop|]. intros total _.
    eapply sound_bind; [apply sound_prop|]. intros has _.
    eapply sound_bind; [apply sound_prop|]. intros ptype _.
    eapply sound_bind; [now apply sound_emit|]. intros _ _.
    apply sound_ret. unfold isRateResults. repeat eexists.
  - intros e. eapply sound_bind; [now apply sound_emit|]. intros _ _.
    eapply sound_bind; [apply sound_takeScreenshot|]. intros _ _.
    eapply sound_bind; [apply sound_isoNow|]. intros stamp _.
    eapply sound_bind; [now apply sound_emit|]. intros _ _. apply sound_throw.
Qed.

End Rules.

(** The two documents the pipeline writes. *)
Lemma wellShaped_rateResults (env : Env) (v : JsVal) :
  isRateResults env v -> wellShaped env (jsonOf v).
Proof.
  intros (t & analysis & rateData & summary & ->).
  unfold wellShaped.
  destruct analysis, rateData; cbn;
    (split; [exists true; split; [reflexivity | discriminate]|]);
    (split; [exists t; reflexivity | eexists; reflexivity]).
Qed.

Lemma wellShaped_errorResult (env : Env) (text : string) (t : Z) :
  wellShaped env
    (jsonOf (VObj [ ("success", VBool false);
                    ("error", VStr text);
                    ("extractionTimestamp", VStr (toISOString env t));
                    ("summary", VObj [ ("totalOptions", VNum 0);
                                       ("pageAnalyzed", VStr "Error occurred") ]) ])).
Proof.
  unfold wellShaped. cbn.
  split; [exists false; split; [reflexivity | intros _; eexists; reflexivity]|].
  split; [exists t; reflexivity | eexists; reflexivity].
Qed.

Section Body.

Variable I : St -> Prop.
Variable env : Env.

Hypothesis I_benign :
  forall e s, benign e = true -> I s ->
    I {| trace := trace s ++ [e]; carrier := carrier s |}.
Hypothesis I_carrier :
  forall s c, isSome c = isSome (carrier s) -> I s ->
    I {| trace := trace s; carrier := c |}.
Hypothesis I_constructed :
  forall s c, I s ->
    I {| trace := trace s ++ [EvCall CNewCarrier true]; carrier := Some c |}.
Hypothesis I_write :
  forall s path doc b, wellShaped env doc -> I s ->
    I {| trace := trace s ++ [EvCall (CWriteFile path doc) b]; carrier := carrier s |}.

Lemma sound_writeFile (path : string) (doc : JsVal) (o : Outcome unit) :
  wellShaped env doc -> sound I (fun _ => True) (call (CWriteFile path doc) o).
Proof.
  intros Hdoc. destruct o as [[]|e]; unfold call.
  - eapply sound_bind with (P := fun _ => True).
    + apply sound_modify. intros s Hs. now apply I_write.
    + intros _ _. now apply sound_ret.
  - eapply sound_bind with (P := fun _ => True).
    + apply sound_modify. intros s Hs. now apply I_write.
    + intros _ _. apply sound_throw.
Qed.

(** The steps that follow a successful submission. *)
Lemma sound_rates_and_result :
  sound I isPipelineResult
    (rateResults <- extractRates env ;;
     call (CWriteFile resultsFile (jsonOf rateResults))
          (writeFile_outcome env resultsFile (jsonOf rateResults)) ;;
     rateData <- prop rateResults "rateData" ;;
     totalOptions <- prop rateData "totalOptionsFound" ;;
     pageType <- prop rateData "pageType" ;;
     claudeAnalysis <- prop rateResults "claudeAnalysis" ;;
     stamp <- prop rateResults "extractionTimestamp" ;;
     ret (VObj [ ("success", VBool true);
                 ("summary", VObj [ ("totalOptions", totalOptions);
                                    ("pageAnalyzed", pageType) ]);
                 ("rateData", rateData);
                 ("claudeAnalysis", claudeAnalysis);
                 ("extractionTimestamp", stamp) ])).
Proof.
  eapply sound_bind; [now apply sound_extractRates|]. intros rateResults Hr.
  eapply sound_bind; [apply sound_writeFile, wellShaped_rateResults, Hr|]. intros _ _.
  eapply sound_bind; [apply sound_prop|]. intros rateData _.
  eapply sound_bind; [apply sound_prop|]. intros total _.
  eapply sound_bind; [apply sound_prop|]. intros ptype _.
  eapply sound_bind; [apply sound_prop|]. intros analysis _.
  eapply sound_bind; [apply sound_prop|]. intros stamp _.
  apply sound_ret. unfold isPipelineResult. eexists; eexists; reflexivity.
Qed.

Lemma sound_try : sound I isPipelineResult (extractMaerskRates_try env).
Proof.
  unfold extractMaerskRates_try.
  destruct (missingCredentials env); [apply sound_throw|].
  destruct (negb _); [apply sound_throw|].
  eapply sound_bind; [apply sound_dateNow|]. intros now _.
  eapply sound_bind; [now apply sound_newMaerskCarrier|]. intros _ _.
  eapply sound_bind; [now apply sound_initBrowser|]. intros _ _.
  eapply sound_bind; [now apply sound_loginLoopFrom|]. intros loginSuccess _.
  destruct (negb loginSuccess); [apply sound_throw|].
  eapply sound_bind; [now apply sound_pageUrl|]. intros url _.
  eapply sound_bind with (P := fun _ => True).
  { destruct (negb _); [|now apply sound_ret].
    eapply sound_bind; [apply sound_getCarrier|]. intros c _.
    eapply sound_bind; [now apply sound_call|]. intros _ _.
    now apply sound_sleep. }
  intros _ _.
  eapply sound_bind; [now apply (sound_call I I_benign CVerifyBookingPage)|].
  intros pa _.
  destruct (_ && _)%bool; [|apply sound_throw].
  eapply sound_bind; [now apply sound_fillBookingForm|]. intros fr _.
  destruct (canContinue fr); [|apply sound_throw].
  eapply sound_bind; [now apply (sound_call I I_benign CSubmitBookingForm)|].
  intros sr _.
  destruct (submitSuccess sr); [|apply sound_throw].
  apply sound_rates_and_result.
Qed.

Lemma sound_catch (Q : JsVal -> Prop) (e : JsError) :
  sound I Q (extractMaerskRates_catch env e).
Proof.
  unfold extractMaerskRates_catch.
  eapply sound_bind; [now apply sound_emit|]. intros _ _.
  eapply sound_bind; [apply sound_getCarrier|]. intros c _.
  eapply sound_bind with (P := fun _ => True).
  { destruct c as [obj|]; [destruct (page obj)|]; try now apply sound_ret.
    apply sound_tryCatch; [now apply sound_takeScreenshot|].
    intros se. now apply sound_emit. }
  intros _ _.
  eapply sound_bind; [apply sound_isoNow|]. intros stamp [t ->].
  eapply sound_bind; [apply sound_writeFile, wellShaped_errorResult|]. intros _ _.
  apply sound_throw.
Qed.

(** The [try] block with its [catch]: the state reached before [finally]. *)
Lemma sound_try_catch :
  sound I isPipelineResult
    (tryCatch (extractMaerskRates_try env) (extractMaerskRates_catch env)).
Proof.
  apply sound_tryCatch; [apply sound_try | intros e; now apply sound_catch].
Qed.

End Body.

End PipelineInvariants.

(* ===================================================================== *)
(** ** Teardown and result documents of [extractMaerskRates] *)
(* ===================================================================== *)

Module PipelineFacts.
Import Pipeline PipelineInvariants.

Lemma count_app (p : Event -> bool) (a b : list Event) :
  count p (a ++ b) = (count p a + count p b)%nat.
Proof. unfold count. now rewrite filter_app, length_app. Qed.

Lemma writtenDocuments_app (a b : list Event) :
  writtenDocuments (a ++ b) = (writtenDocuments a ++ writtenDocuments b)%list.
Proof.
  induction a as [|e a IH]; [reflexivity|].
  destruct e as [c r| | | |]; cbn; try exact IH.
  destruct c; cbn; try exact IH. now rewrite IH.
Qed.

Lemma benign_not_close (e : Event) : benign e = true -> isClose e = false.
Proof. destruct e as [c r| | | |]; [destruct c|..]; cbn; congruence. Qed.

Lemma benign_not_constructed (e : Event) :
  benign e = true -> isCarrierConstructed e = false.
Proof. destruct e as [c r| | | |]; [destruct c, r|..]; cbn; congruence. Qed.

Lemma benign_not_written (e : Event) : benign e = true -> writtenDocuments [e] = [].
Proof. destruct e as [c r| | | |]; [destruct c|..]; cbn; congruence. Qed.

(** [notYetClosed] is an invariant of everything before [finally]. *)
Lemma notYetClosed_event (e : Event) (s : St) :
  isClose e = false -> isCarrierConstructed e = false -> notYetClosed s ->
  notYetClosed {| trace := trace s ++ [e]; carrier := carrier s |}.
Proof.
  intros Hc Hn [H0 H1]. unfold notYetClosed. cbn [trace carrier].
  rewrite count_app, existsb_app, H0, H1. unfold count. cbn.
  rewrite Hc, Hn. cbn. split; [reflexivity | apply orb_false_r].
Qed.

Lemma notYetClosed_try_catch (env : Env) :
  sound notYetClosed isPipelineResult
    (tryCatch (extractMaerskRates_try env) (extractMaerskRates_catch env)).
Proof.
  apply sound_try_catch.
  - intros e s He. apply notYetClosed_event;
      [now apply benign_not_close | now apply benign_not_constructed].
  - intros s c Hc [H0 H1]. split; cbn [trace carrier]; [exact H0 | congruence].
  - intros s c [H0 H1]. unfold notYetClosed. cbn [trace carrier].
    rewrite count_app, existsb_app, H0. cbn. split; [reflexivity | apply orb_true_r].
  - intros s path doc b _. now apply notYetClosed_event.
Qed.


(** The [finally] block completes normally and adds the closing events. *)
Lemma finally_run (env : Env) (s : St) :
  extractMaerskRates_finally env s
  = (Normal tt,
     {| trace := trace s ++ closingEvents env (isSome (carrier s));
        carrier := carrier s |}).
Proof.
  unfold extractMaerskRates_finally, closingEvents, getCarrier, tryCatch, call,
    emit, modifyState, bind, getState, ret, throw.
  destruct s as [t [obj|]]; cbn.
  - destruct (close_outcome env) as [[]|e]; cbn; [reflexivity|].
    now rewrite <- app_assoc.
  - now rewrite app_nil_r.
Qed.

(** A run is its [try]/[catch] followed by the closing events; the
    completion is the one of the [try]/[catch]. *)
Lemma run_shape (env : Env) (s : St) :
  let before := tryCatch (extractMaerskRates_try env) (extractMaerskRates_catch env) s in
  (forall n, fst before <> Exits n) ->
  extractMaerskRates env s
  = (fst before,
     {| trace := trace (snd before) ++ closingEvents env (isSome (carrier (snd before)));
        carrier := carrier (snd before) |}).
Proof.
  cbn zeta. intros Hx. unfold extractMaerskRates, tryCatchFinally.
  destruct (tryCatch _ _ s) as [[a|e|n] s1]; cbn [fst snd] in *;
    rewrite ?finally_run; try reflexivity.
  now destruct (Hx n).
Qed.

Lemma try_catch_ignores_close (env : Env) (o : Outcome unit) (s : St) :
  tryCatch (extractMaerskRates_try (with_close o env))
           (extractMaerskRates_catch (with_close o env)) s
  = tryCatch (extractMaerskRates_try env) (extractMaerskRates_catch env) s.
Proof. reflexivity. Qed.

Lemma initial_notYetClosed : notYetClosed initial.
Proof. split; reflexivity. Qed.

Lemma closingEvents_count (env : Env) (b : bool) :
  count isClose (closingEvents env b) = (if b then 1 else 0)%nat
  /\ existsb isCarrierConstructed (closingEvents env b) = false.
Proof.
  unfold closingEvents. destruct b; [|split; reflexivity].
  destruct (close_outcome env); split; reflexivity.
Qed.

(** C6.  In every run of [extractMaerskRates] the trace is that of the
    [try]/[catch] part, which never calls [close], followed by the closing
    events: one call of [carrier.close()] when the carrier was constructed
    (with a warning line when it throws), nothing otherwise.  So [close]
    is called exactly once after a construction, and the completion of the
    run (the value returned or the error thrown) is the same whatever
    [close] does. *)
Theorem teardown_runs_once_and_is_silent (env : Env) :
  let run := extractMaerskRates env initial in
  (exists body,
     trace (snd run)
       = (body ++ closingEvents env (existsb isCarrierConstructed body))%list
     /\ count isClose body = 0%nat)
  /\ count isClose (trace (snd run))
     = (if existsb isCarrierConstructed (trace (snd run)) then 1 else 0)%nat
  /\ (forall o : Outcome unit,
        fst (extractMaerskRates (with_close o env) initial) = fst run).
Proof.
  cbn zeta.
  destruct (notYetClosed_try_catch env initial initial_notYetClosed)
    as ([H0 H1] & _ & Hx).
  rewrite (run_shape env initial Hx). cbn [fst snd trace].
  set (before := tryCatch (extractMaerskRates_try env)
                          (extractMaerskRates_catch env) initial) in *.
  rewrite <- H1.
  destruct (closingEvents_count env (existsb isCarrierConstructed (trace (snd before))))
    as [Hc Hn].
  split; [exists (trace (snd before)); split; [reflexivity | exact H0]|].
  split.
  - rewrite count_app, existsb_app, H0, Hc, Hn, orb_false_r. reflexivity.
  - intros o. rewrite run_shape.
    + cbn [fst]. now rewrite try_catch_ignores_close.
    + rewrite try_catch_ignores_close. exact Hx.
Qed.

(** The [catch] block always hands one document to [writeFile]: the error
    result, with the message of the error it caught. *)
Lemma catch_writes_error_document (env : Env) (e : JsError) (s : St) :
  exists t,
    writtenDocuments (trace (snd (extractMaerskRates_catch env e s)))
    = (writtenDocuments (trace s)
       ++ [ VObj [ ("success", VBool false);
                   ("error", VStr (message e));
                   ("extractionTimestamp", VStr (toISOString env t));
                   ("summary", VObj [ ("totalOptions", VNum 0);
                                      ("pageAnalyzed", VStr "Error occurred") ]) ] ])%list.
Proof.
  unfold extractMaerskRates_catch, takeScreenshot, isoNow, dateNow, getCarrier,
    tryCatch, call, emit, modifyState, bind, getState, ret, throw.
  destruct s as [t [[url [|]]|]]; cbn;
    try destruct (takeScreenshot_outcome env _) as [[]|se]; cbn;
    match goal with
    | |- context [writeFile_outcome env ?f ?d] =>
        destruct (writeFile_outcome env f d) as [[]|we]
    end; cbn; eexists;
    rewrite !writtenDocuments_app; cbn; rewrite ?app_nil_r; reflexivity.
Qed.


(** Two runs of the pipeline, one on each path. *)
Example success_path_document :
  writtenDocuments (trace (snd (extractMaerskRates cooperativeEnv initial)))
  = [ VObj [ ("success", VBool true);
             ("extractionTimestamp", VStr "2023-11-14T22:13:20.000Z");
             ("source", VStr "Maersk.com");
             ("claudeAnalysis", VStr "one option");
             ("rateData", VObj [ ("rates", VArr []);
                                 ("totalOptionsFound", VNum 1);
                                 ("hasRateInformation", VBool true);
                                 ("pageType", VStr "rates") ]);
             ("summary", VObj [ ("totalOptions", VNum 1);
                                ("hasRates", VBool true);
                                ("pageAnalyzed", VStr "rates") ]) ] ].
Proof. reflexivity. Qed.

Example failure_path_document :
  let env := with_hybridLogin (fun _ => Returns false) cooperativeEnv in
  writtenDocuments (trace (snd (extractMaerskRates env initial)))
  = [ VObj [ ("success", VBool false);
             ("error", VStr "All Claude login attempts failed");
             ("extractionTimestamp", VStr "2023-11-14T22:13:20.000Z");
             ("summary", VObj [ ("totalOptions", VNum 0);
                                ("pageAnalyzed", VStr "Error occurred") ]) ] ].
Proof. reflexivity. Qed.

Example close_error_keeps_the_result :
  let env := with_close (Raises (mkError "browser has gone")) cooperativeEnv in
  fst (extractMaerskRates env initial) = fst (extractMaerskRates cooperativeEnv initial)
  /\ isNormal (fst (extractMaerskRates env initial)) = true
  /\ count isClose (trace (snd (extractMaerskRates env initial))) = 1%nat
  /\ In (EvWarn "Cleanup error: browser has gone")
        (trace (snd (extractMaerskRates env initial))).
Proof.
  cbn zeta. split; [reflexivity|]. split; [reflexivity|]. split; [reflexivity|].
  vm_compute. intuition.
Qed.

(** *** The error that leaves the pipeline when the login is exhausted *)

Lemma catch_rethrows (env : Env) (e : JsError) (s : St) :
  (forall doc, writeFile_outcome env resultsFile doc = Returns tt) ->
  fst (extractMaerskRates_catch env e s) = Throws e.
Proof.
  intros Hw.
  unfold extractMaerskRates_catch, takeScreenshot, isoNow, dateNow, getCarrier,
    tryCatch, call, emit, modifyState, bind, getState, ret, throw.
  destruct s as [t [[url [|]]|]]; cbn;
    try destruct (takeScreenshot_outcome env _) as [[]|se]; cbn;
    rewrite Hw; reflexivity.
Qed.

Lemma exhausted_login_throws (env : Env) (e1 e2 : JsError) (s : St) :
  claudeConfigured env ->
  initBrowser_outcome env = Returns tt ->
  hybridLogin_outcome env 1%nat = Raises e1 ->
  hybridLogin_outcome env 2%nat = Raises e2 ->
  fst (extractMaerskRates_try env s) = Throws e2.
Proof.
  intros [Hcred Hkey] Hinit H1 H2.
  unfold extractMaerskRates_try. rewrite Hcred, Hkey. cbn [negb].
  unfold newMaerskCarrier. unfold missingCredentials in Hcred.
  rewrite Hcred, Hkey. cbn [negb].
  unfold initBrowser, loginLoop, maxLoginAttempts. cbn [loginLoopFrom].
  unfold loginAttempt. rewrite Hinit, H1, H2.
  reflexivity.
Qed.

(** C5, as the code has it.  When both login attempts of
    [extractMaerskRates] throw, the error that reaches the caller is the
    error of the last attempt itself, unchanged (provided the error document
    can be written): nothing wraps it, and neither an action identifier nor
    the attempt count is added to it. *)
Theorem exhausted_login_error_is_rethrown_unchanged
    (env : Env) (e1 e2 : JsError)
    (Hconf : claudeConfigured env)
    (Hinit : initBrowser_outcome env = Returns tt)
    (H1 : hybridLogin_outcome env 1%nat = Raises e1)
    (H2 : hybridLogin_outcome env 2%nat = Raises e2)
    (Hwrite : forall doc, writeFile_outcome env resultsFile doc = Returns tt) :
  fst (extractMaerskRates env initial) = Throws e2.
Proof.
  destruct (notYetClosed_try_catch env initial initial_notYetClosed)
    as (_ & _ & Hx).
  rewrite (run_shape env initial Hx). cbn [fst].
  unfold tryCatch.
  pose proof (exhausted_login_throws env e1 e2 initial Hconf Hinit H1 H2) as Ht.
  destruct (extractMaerskRates_try env initial) as [r s1]. cbn [fst] in Ht. subst r.
  now apply catch_rethrows.
Qed.

Lemma exhausted_login_error_is_rethrown_unchanged_witness :
  fst (extractMaerskRates
         (with_hybridLogin
            (fun k => Raises (mkError (if Nat.eqb k 1 then "first" else "second")))
            cooperativeEnv)
         initial)
  = Throws (mkError "second").
Proof.
  apply (exhausted_login_error_is_rethrown_unchanged
           (with_hybridLogin
              (fun k => Raises (mkError (if Nat.eqb k 1 then "first" else "second")))
              cooperativeEnv)
           (mkError "first") (mkError "second")).
  - split; reflexivity.
  - reflexivity.
  - reflexivity.
  - reflexivity.
  - intros doc. reflexivity.
Defined.

(** C5 as stated fails: with the login throwing on both attempts, the
    caller of [extractMaerskRates] receives the bare login error, whose
    message does not contain the attempt count whatever the action
    identifier is taken to be. *)
Lemma exhausted_login_error_is_bare :
  let bare := mkError "Login verification failed - still appears to be on login page" in
  let env := with_hybridLogin (fun _ => Raises bare) cooperativeEnv in
  fst (extractMaerskRates env initial) = Throws bare
  /\ forall actionId, ~ carriesContext bare actionId maxLoginAttempts.
Proof.
  cbn zeta. split; [reflexivity|].
  intros actionId [_ H]. vm_compute in H. discriminate.
Qed.

End PipelineFacts.

(* ===================================================================== *)
(** ** Exit codes of the two entry points *)
(* ===================================================================== *)

Module ExitCodeFacts.
Import Pipeline PipelineInvariants PipelineFacts.


























End ExitCodeFacts.

(* ===================================================================== *)
(** ** Rules for specifications *)
(* ===================================================================== *)

Module TripleRules.
Import Triples.

Section Rules.

Context {S : Type}.
Implicit Types (P : S -> Prop) (T : JsError -> S -> Prop) (X : Z -> S -> Prop).

Lemma triple_ret {A} P (N : A -> S -> Prop) T X (a : A) :
  (forall s, P s -> N a s) -> triple P (ret a) N T X.
Proof. intros H s Hs. exact (H s Hs). Qed.

Lemma triple_throw {A} P (N : A -> S -> Prop) T X (e : JsError) :
  (forall s, P s -> T e s) -> triple P (throw e) N T X.
Proof. intros H s Hs. exact (H s Hs). Qed.

Lemma triple_exit {A} P (N : A -> S -> Prop) T X (n : Z) :
  (forall s, P s -> X n s) -> triple P (processExit n) N T X.
Proof. intros H s Hs. exact (H s Hs). Qed.

Lemma triple_bind {A B} P (N' : A -> S -> Prop) (N : B -> S -> Prop) T X
    (m : Eff S A) (k : A -> Eff S B) :
  triple P m N' T X -> (forall a, triple (N' a) (k a) N T X) ->
  triple P (bind m k) N T X.
Proof.
  intros Hm Hk s Hs. specialize (Hm s Hs). unfold bind.
  destruct (m s) as [[a|e|n] s']; cbn in *; [exact (Hk a s' Hm) | exact Hm ..].
Qed.

Lemma triple_tryCatch {A} P (N : A -> S -> Prop) T' T X
    (body : Eff S A) (handler : JsError -> Eff S A) :
  triple P body N T' X -> (forall e, triple (T' e) (handler e) N T X) ->
  triple P (tryCatch body handler) N T X.
Proof.
  intros Hb Hh s Hs. specialize (Hb s Hs). unfold tryCatch.
  destruct (body s) as [[a|e|n] s']; cbn in *; [exact Hb | exact (Hh e s' Hb) | exact Hb].
Qed.

Lemma triple_weaken {A} P P' (N N' : A -> S -> Prop) T T' X X' (m : Eff S A) :
  triple P' m N' T' X' ->
  (forall s, P s -> P' s) ->
  (forall a s, N' a s -> N a s) ->
  (forall e s, T' e s -> T e s) ->
  (forall n s, X' n s -> X n s) ->
  triple P m N T X.
Proof.
  intros Hm HP HN HT HX s Hs. specialize (Hm s (HP s Hs)).
  destruct (fst (m s)); cbn in *; auto.
Qed.

Lemma triple_getState P T X :
  triple P getState (fun a s => a = s /\ P s) T X.
Proof. intros s Hs. cbn. now split. Qed.

Lemma triple_modify P (N : unit -> S -> Prop) T X (f : S -> S) :
  (forall s, P s -> N tt (f s)) -> triple P (modifyState f) N T X.
Proof. intros H s Hs. exact (H s Hs). Qed.

(** A computation that leaves the state alone keeps any [P]. *)
Lemma triple_pure {A} P (m : Eff S A) :
  (forall s, snd (m s) = s) -> (forall s n, fst (m s) <> Exits n) ->
  triple P m (fun _ => P) (fun _ => P) (fun _ _ => False).
Proof.
  intros Hs Hx s HP. specialize (Hs s). specialize (Hx s).
  destruct (m s) as [[a|e|n] s']; cbn in *; subst; auto. now apply (Hx n).
Qed.

Lemma neverExits_ret {A} (a : A) : neverExits (ret (S := S) a).
Proof. intros s n. discriminate. Qed.

Lemma neverExits_throw {A} (e : JsError) : neverExits (throw (S := S) (A := A) e).
Proof. intros s n. discriminate. Qed.

Lemma neverExits_getState : neverExits (getState (S := S)).
Proof. intros s n. discriminate. Qed.

Lemma neverExits_modify (f : S -> S) : neverExits (modifyState f).
Proof. intros s n. discriminate. Qed.

Lemma neverExits_bind {A B} (m : Eff S A) (k : A -> Eff S B) :
  neverExits m -> (forall a, neverExits (k a)) -> neverExits (bind m k).
Proof.
  intros Hm Hk s n. unfold bind. specialize (Hm s).
  destruct (m s) as [[a|e|x] s']; cbn in *;
    [apply Hk | discriminate | now destruct (Hm x)].
Qed.

Lemma neverExits_tryCatch {A} (body : Eff S A) (handler : JsError -> Eff S A) :
  neverExits body -> (forall e, neverExits (handler e)) ->
  neverExits (tryCatch body handler).
Proof.
  intros Hb Hh s n. unfold tryCatch. specialize (Hb s).
  destruct (body s) as [[a|e|x] s']; cbn in *;
    [discriminate | apply Hh | now destruct (Hb x)].
Qed.

(** After a computation that never exits, what the rest guarantees from
    every state holds of the whole, as far as a normal completion goes. *)
Lemma triple_after {A B} (N : B -> S -> Prop) (m : Eff S A) (k : A -> Eff S B) :
  neverExits m ->
  (forall a, triple (fun _ => True) (k a) N (fun _ _ => True) (fun _ _ => False)) ->
  triple (fun _ => True) (bind m k) N (fun _ _ => True) (fun _ _ => False).
Proof.
  intros Hm Hk s _. unfold bind. specialize (Hm s).
  destruct (m s) as [[a|e|x] s']; cbn in *; [exact (Hk a s' I) | exact I | now apply (Hm x)].
Qed.

End Rules.

(** Discharges [neverExits] goals by the structure of the computation. *)
Ltac no_exit :=
  repeat first
    [ apply neverExits_ret
    | apply neverExits_throw
    | apply neverExits_getState
    | apply neverExits_modify
    | apply neverExits_bind; [|intros ?]
    | apply neverExits_tryCatch; [|intros ?]
    | match goal with
      | |- neverExits (if ?b then _ else _) => destruct b
      | |- neverExits (match ?x with _ => _ end) => destruct x
      end ].

End TripleRules.

(* ===================================================================== *)
(** ** Sequences of rate-limited calls: spacing of the agent calls *)
(* ===================================================================== *)

Module RateLimitRunsFacts.
Import RateLimit RateLimitRuns RateLimitFacts.

(** The carrier and the agent calls after an allowed call. *)
Lemma allowed_run (h : Helper) (agent : Agent) (now : Z) (task fallback : string)
    (m : Machine) :
  claudeRateLimit (this m) <= now - lastClaudeCall (this m) ->
  let m' := snd (callWithRateLimit h agent now task fallback m) in
  claudeRateLimit (this m') = claudeRateLimit (this m)
  /\ (lastClaudeCall (this m') = now
      \/ lastClaudeCall (this m') = now + claudeRateLimit (this m))
  /\ agentCalls (trace m') = (agentCalls (trace m) ++ [EvAgentCall task])%list.
Proof.
  intros Hlate.
  assert (Hd : (now - lastClaudeCall (this m) <? claudeRateLimit (this m)) = false)
    by (apply Z.ltb_ge; exact Hlate).
  unfold agentCalls.
  destruct h; run_helper; rewrite Hd; cbn;
    destruct (agent task) as [msg|e]; cbn;
    try destruct (hasRateLimitSignature e); cbn;
    rewrite !filter_app; cbn; rewrite ?app_nil_r;
    (split; [reflexivity|]); (split; [auto | reflexivity]).
Qed.

Lemma serve_denied (r : Request) (m : Machine) :
  denied (this m) (atTime r) = true ->
  this (serve r m) = this m
  /\ agentCalls (trace (serve r m)) = agentCalls (trace m).
Proof.
  intros Hd. unfold denied in Hd. apply Z.ltb_lt in Hd.
  unfold serve. rewrite denied_run by exact Hd. cbn [snd this trace].
  split; [reflexivity | apply agentCalls_warning].
Qed.

Lemma spacing_invariant (requests : list Request) :
  forall m, 0 <= claudeRateLimit (this m) ->
    spaced (claudeRateLimit (this m)) (allowedTimes requests m)
    /\ (forall t rest, allowedTimes requests m = t :: rest ->
          lastClaudeCall (this m) + claudeRateLimit (this m) <= t)
    /\ List.length (agentCalls (trace (serveAll requests m)))
       = (List.length (agentCalls (trace m))
          + List.length (allowedTimes requests m))%nat
    /\ claudeRateLimit (this (serveAll requests m)) = claudeRateLimit (this m).
Proof.
  induction requests as [|r rest IH]; intros m Hpos.
  - cbn. repeat split; try lia. intros t rest0 E. discriminate.
  - cbn [allowedTimes serveAll]. destruct (denied (this m) (atTime r)) eqn:Hd.
    + destruct (serve_denied r m Hd) as [Hthis Hcalls].
      specialize (IH (serve r m)). rewrite Hthis, Hcalls in IH. apply IH, Hpos.
    + unfold denied in Hd. apply Z.ltb_ge in Hd.
      destruct (allowed_run (viaHelper r) (agentThen r) (atTime r) (taskText r)
                  (fallbackText r) m Hd) as (Hlim & Hlast & Hcalls).
      fold (serve r m) in Hlim, Hlast, Hcalls.
      specialize (IH (serve r m)). rewrite Hlim in IH.
      destruct (IH Hpos) as (Hsp & Hhead & Hlen & Hkeep).
      split.
      { cbn [spaced]. split; [|exact Hsp].
        destruct (allowedTimes rest (serve r m)) as [|t2 more] eqn:E; [exact I|].
        specialize (Hhead t2 more eq_refl). lia. }
      split; [intros t rest0 E; injection E as <- _; lia|].
      split; [|exact Hkeep].
      rewrite Hlen, Hcalls, length_app. cbn. lia.
Qed.

(** X1.  Whatever requests reach a carrier, in whatever order of clock
    readings, the readings at which the agent is called are at least
    [claudeRateLimit] apart, and the agent is called once for each of them
    and for no other request. *)
Theorem agent_calls_are_spaced (requests : list Request) (m : Machine)
    (Hpos : 0 <= claudeRateLimit (this m)) :
  spaced (claudeRateLimit (this m)) (allowedTimes requests m)
  /\ List.length (agentCalls (trace (serveAll requests m)))
     = (List.length (agentCalls (trace m))
        + List.length (allowedTimes requests m))%nat.
Proof.
  destruct (spacing_invariant requests m Hpos) as (Hsp & _ & Hlen & _).
  split; [exact Hsp | exact Hlen].
Qed.

Lemma agent_calls_are_spaced_witness :
  let ask t reply := {| viaHelper := ClaudeHelper; agentThen := fun _ => reply;
                        atTime := t; taskText := "task"; fallbackText := "skipped" |} in
  let requests := [ ask 100000 (Replied "ok"); ask 130000 (Replied "ok");
                    ask 160000 (Failed (mkError "429")); ask 250000 (Replied "ok");
                    ask 280000 (Replied "ok") ] in
  let m := {| this := newCarrier; trace := [] |} in
  allowedTimes requests m = [100000; 160000; 280000]
  /\ spaced 60000 (allowedTimes requests m)
  /\ List.length (agentCalls (trace (serveAll requests m))) = 3%nat.
Proof.
  cbn zeta. split; [reflexivity|].
  exact (agent_calls_are_spaced
           [ {| viaHelper := ClaudeHelper; agentThen := fun _ => Replied "ok";
                atTime := 100000; taskText := "task"; fallbackText := "skipped" |};
             {| viaHelper := ClaudeHelper; agentThen := fun _ => Replied "ok";
                atTime := 130000; taskText := "task"; fallbackText := "skipped" |};
             {| viaHelper := ClaudeHelper; agentThen := fun _ => Failed (mkError "429");
                atTime := 160000; taskText := "task"; fallbackText := "skipped" |};
             {| viaHelper := ClaudeHelper; agentThen := fun _ => Replied "ok";
                atTime := 250000; taskText := "task"; fallbackText := "skipped" |};
             {| viaHelper := ClaudeHelper; agentThen := fun _ => Replied "ok";
                atTime := 280000; taskText := "task"; fallbackText := "skipped" |} ]
           {| this := newCarrier; trace := [] |} ltac:(cbn; lia)).
Defined.

End RateLimitRunsFacts.

(* ===================================================================== *)
(** ** Validation of a booking: what is reported *)
(* ===================================================================== *)

Module BookingReportFacts.
Import Booking BookingFacts Pipeline PipelineReading.

Lemma in_pushIf (cond : bool) (text x : string) (errors : list string) :
  In x (pushIf cond text errors) <-> In x errors \/ (cond = true /\ x = text).
Proof.
  unfold pushIf. destruct cond.
  - rewrite in_app_iff. cbn. intuition congruence.
  - intuition congruence.
Qed.

(** X2.  [validate] reports every missing field, not only the first: each
    of its five messages is in the list exactly when the field it names
    fails its test, and nothing else is ever in the list. *)
Theorem validate_reports_each_missing_field (b : BookingDetails) :
  exists errors,
    validate b = (Normal errors, b)
    /\ (In "Origin location is required" errors
        <-> locationMissing (origin b) = true)
    /\ (In "Destination location is required" errors
        <-> locationMissing (destination b) = true)
    /\ (In "At least one container is required" errors
        <-> containersMissing (containers b) = true)
    /\ (In "Commodity is required" errors
        <-> commodityMissing (commodity b) = true)
    /\ (In "Ready date is required" errors
        <-> readyDateMissing (readyDate b) = true)
    /\ (List.length errors <= 5)%nat
    /\ NoDup errors.
Proof.
  eexists. split; [reflexivity|].
  repeat split; try (rewrite !in_pushIf; cbn; intuition congruence);
    destruct (locationMissing (origin b)), (locationMissing (destination b)),
      (containersMissing (containers b)), (commodityMissing (commodity b)),
      (readyDateMissing (readyDate b)); cbn; try lia;
    repeat constructor; cbn; intuition congruence.
Qed.

(** X3.  A commodity is reported as missing exactly when it is absent or
    consists of white space only (the empty string included). *)
Theorem blank_commodity_is_missing (c : option string) :
  commodityMissing c = true
  <-> c = None
      \/ exists s, c = Some s
                   /\ forall ch, In ch (list_ascii_of_string s) -> isTrimmable ch = true.
Proof.
  destruct c as [s|]; cbn.
  - rewrite orb_true_iff, negb_true_iff, String.eqb_eq, trim_empty. split.
    + intros [H|H].
      * right. exists s. split; [reflexivity|].
        destruct s; [intros ch []|discriminate].
      * right. exists s. split; [reflexivity | exact H].
    + intros [H|(s' & E & H)]; [discriminate|]. injection E as <-. now right.
  - split; [now left | reflexivity].
Qed.

(** X4.  For a booking that fails validation, [fillBookingForm] never
    reaches the agent-driven steps: it throws the validation error that
    lists the messages joined by a comma (or the error of the screenshot
    it takes on the way out, when that one throws). *)
Theorem invalid_booking_stops_before_the_agent
    (env : Env) (b : BookingDetails) (errors : list string) (s : St)
    (Hval : validate b = (Normal errors, b))
    (Hbad : errors <> []) :
  let run := fillBookingForm env b s in
  (exists added, trace (snd run) = (trace s ++ added)%list
                 /\ existsb isFillSteps added = false)
  /\ (fst run = Throws (validationError errors)
      \/ exists e, takeScreenshot_outcome env "error_form_filling_targeted.png"
                   = Raises e /\ fst run = Throws e).
Proof.
  assert (Hguard : fillBookingForm_guard b = (Throws (validationError errors), b)).
  { unfold fillBookingForm_guard, bind. rewrite Hval.
    destruct errors as [|msg more]; [now destruct Hbad | reflexivity]. }
  cbn zeta. unfold fillBookingForm, onObject.
  unfold takeScreenshot, getCarrier, tryCatch, call, emit, modifyState, bind,
    getState, ret, throw.
  rewrite Hguard.
  destruct s as [t [[url [|]]|]]; cbn;
    try destruct (takeScreenshot_outcome env _) as [[]|se]; cbn;
    (split; [eexists; split; [try rewrite <- app_assoc; reflexivity | reflexivity]|]);
    try (left; reflexivity).
  right. exists se. split; reflexivity.
Qed.

Lemma invalid_booking_stops_before_the_agent_witness :
  let b := {| origin := None; destination := None; originTransport := None;
              destinationTransport := None; containers := Some [];
              commodity := Some "  "; readyDate := None;
              requiresTemperatureControl := false; isDangerousCargo := false;
              isPriceOwner := true |} in
  fst (fillBookingForm cooperativeEnv b initial)
  = Throws (mkError "Booking validation failed: Origin location is required, Destination location is required, At least one container is required, Commodity is required, Ready date is required").
Proof.
  cbn zeta.
  destruct (invalid_booking_stops_before_the_agent cooperativeEnv
              {| origin := None; destination := None; originTransport := None;
                 destinationTransport := None; containers := Some [];
                 commodity := Some "  "; readyDate := None;
                 requiresTemperatureControl := false; isDangerousCargo := false;
                 isPriceOwner := true |}
              _ initial eq_refl ltac:(discriminate)) as [_ [H|(e & He & _)]].
  - exact H.
  - discriminate He.
Defined.

End BookingReportFacts.

(* ===================================================================== *)
(** ** The login retry loop for an arbitrary [hybridLogin] *)
(* ===================================================================== *)

Module LoginLoopFacts.
Import Pipeline PipelineReading PipelineFacts.

Section Loop.

Variable label : string.
Variable f : nat -> Outcome bool.
Variable N : nat.

(** The three ways one attempt can go. *)
Lemma attempt_returns (a : nat) (ok : bool) (s : St) :
  f a = Returns ok ->
  loginAttempt label f N a s
  = (Normal ok,
     extend s (EvCall CHybridLogin true
               :: if ok then []
                  else [EvWarn (label ++ " sequential login returned false")])).
Proof.
  intros E. unfold loginAttempt, tryCatch, call, emit, modifyState, bind, ret, extend.
  rewrite E. destruct ok; cbn; [reflexivity|]. now rewrite <- app_assoc.
Qed.

Lemma attempt_raises (a : nat) (e : JsError) (s : St) :
  f a = Raises e ->
  loginAttempt label f N a s
  = if Nat.ltb a N then
      (Normal false,
       extend s [ EvCall CHybridLogin false;
                  EvWarn (label ++ " login attempt " ++ showNat a
                            ++ " failed: " ++ message e);
                  EvSleep 3000 ])
    else
      (Throws e,
       extend s [ EvCall CHybridLogin false;
                  EvWarn (label ++ " login attempt " ++ showNat a
                            ++ " failed: " ++ message e);
                  EvFail ("Maximum " ++ label ++ " login attempts reached.") ]).
Proof.
  intros E. unfold loginAttempt, tryCatch, call, sleep, emit, modifyState, bind,
    ret, throw, extend.
  rewrite E. destruct (Nat.ltb a N); cbn; now rewrite <- !app_assoc.
Qed.

Lemma extend_extend (s : St) (a b : list Event) :
  extend (extend s a) b = extend s (a ++ b).
Proof. unfold extend. cbn. now rewrite app_assoc. Qed.

Lemma sleeps_app (a b : list Event) : sleeps (a ++ b) = (sleeps a ++ sleeps b)%list.
Proof.
  induction a as [|e a IH]; [reflexivity|].
  destruct e; cbn; try exact IH. now rewrite IH.
Qed.

(** What the loop adds, whatever the attempts do. *)
Lemma loop_bound (r : nat) :
  forall a s, (a + r = N + 1)%nat ->
    exists added,
      snd (loginLoopFrom label f N r a s) = extend s added
      /\ (count isLoginAttempt added <= r)%nat
      /\ (1 <= r -> 1 <= count isLoginAttempt added)%nat
      /\ Forall (fun ms => ms = 3000) (sleeps added)
      /\ (List.length (sleeps added) <= count isLoginAttempt added - 1)%nat
      /\ (forall n, fst (loginLoopFrom label f N r a s) <> Exits n).
Proof.
  induction r as [|r IH]; intros a s Hsum.
  - exists []. cbn. unfold extend. rewrite app_nil_r. destruct s.
    split; [reflexivity|]. split; [lia|]. split; [lia|].
    split; [constructor|]. split; [lia | discriminate].
  - cbn [loginLoopFrom]. unfold bind.
    destruct (f a) as [[|]|e] eqn:E.
    + rewrite (attempt_returns a true s E). cbn [fst snd].
      eexists. split; [reflexivity|]. cbn.
      split; [lia|]. split; [lia|].
      split; [constructor|]. split; [lia | discriminate].
    + rewrite (attempt_returns a false s E).
      destruct (IH (S a) (extend s [EvCall CHybridLogin true;
                      EvWarn (label ++ " sequential login returned false")])
                  ltac:(lia)) as (added & Hs & Hle & Hge & Hall & Hlen & Hx).
      eexists. split; [rewrite Hs, extend_extend; reflexivity|].
      rewrite count_app, sleeps_app. cbn.
      change (count isLoginAttempt [EvCall CHybridLogin true;
                EvWarn (label ++ " sequential login returned false")]) with 1%nat.
      split; [lia|]. split; [lia|]. split; [exact Hall|]. split; [lia | exact Hx].
    + rewrite (attempt_raises a e s E).
      destruct (Nat.ltb a N) eqn:Hlt.
      * apply Nat.ltb_lt in Hlt.
        destruct (IH (S a) (extend s [EvCall CHybridLogin false;
                      EvWarn (label ++ " login attempt " ++ showNat a
                                ++ " failed: " ++ message e);
                      EvSleep 3000])
                  ltac:(lia)) as (added & Hs & Hle & Hge & Hall & Hlen & Hx).
        eexists. split; [rewrite Hs, extend_extend; reflexivity|].
        rewrite count_app, sleeps_app. cbn [sleeps app List.length].
        match goal with |- context [count isLoginAttempt [?x; ?y; ?z]] =>
          change (count isLoginAttempt [x; y; z]) with 1%nat end.
        assert (1 <= count isLoginAttempt added)%nat by (apply Hge; lia).
        split; [lia|]. split; [lia|]. split; [now constructor|].
        split; [lia | exact Hx].
      * eexists. split; [reflexivity|]. cbn.
        split; [lia|]. split; [lia|].
        split; [constructor|]. split; [lia | discriminate].
Qed.

(** X5.  Whatever [hybridLogin] does, the loop calls it at most
    [maxAttempts] times, every delay it sleeps is 3000 ms, there are fewer
    delays than attempts, the variable [carrier] is left alone and the
    process is not ended. *)
Theorem login_loop_is_bounded (s : St) :
  let run := loginLoop label f N s in
  (exists added,
     trace (snd run) = (trace s ++ added)%list
     /\ (count isLoginAttempt added <= N)%nat
     /\ Forall (fun ms => ms = 3000) (sleeps added)
     /\ (List.length (sleeps added) <= count isLoginAttempt added - 1)%nat)
  /\ carrier (snd run) = carrier s
  /\ (forall n, fst run <> Exits n).
Proof.
  cbn zeta. unfold loginLoop.
  destruct (loop_bound N 1%nat s ltac:(lia)) as (added & Hs & Hle & _ & Hall & Hlen & Hx).
  rewrite Hs. cbn [extend trace carrier].
  split; [exists added; repeat split; assumption|].
  split; [reflexivity | exact Hx].
Qed.

(** The loop from attempt [a] on, when attempt [k] is the first to
    return [true]. *)
Lemma loop_first_success (k : nat) (Hk : f k = Returns true) :
  forall d a r s,
    (a + d = k)%nat -> (1 <= a)%nat -> (a + r = N + 1)%nat -> (k <= N)%nat ->
    (forall j, (a <= j < k)%nat -> f j <> Returns true) ->
    exists added,
      loginLoopFrom label f N r a s
      = (Normal true, extend s (added ++ [EvCall CHybridLogin true]))
      /\ count isLoginAttempt added = d.
Proof.
  induction d as [|d IH]; intros a r s Ha Hpos Hr HkN Hfirst.
  - assert (a = k) by lia. subst a. destruct r as [|r]; [lia|].
    cbn [loginLoopFrom]. unfold bind at 1. rewrite (attempt_returns k true s Hk).
    exists []. split; reflexivity.
  - destruct r as [|r]; [lia|].
    cbn [loginLoopFrom]. unfold bind at 1.
    assert (Hne : f a <> Returns true) by (apply Hfirst; lia).
    destruct (f a) as [[|]|e] eqn:E; [now destruct Hne|..].
    + rewrite (attempt_returns a false s E).
      destruct (IH (S a) r (extend s [EvCall CHybridLogin true;
                   EvWarn (label ++ " sequential login returned false")]))
        as (added & Hrun & Hcount); try lia.
      { intros j Hj. apply Hfirst. lia. }
      eexists. split; [rewrite Hrun, extend_extend, app_assoc; reflexivity|].
      rewrite count_app, Hcount. reflexivity.
    + rewrite (attempt_raises a e s E).
      assert (Hlt : Nat.ltb a N = true) by (apply Nat.ltb_lt; lia).
      rewrite Hlt.
      destruct (IH (S a) r (extend s [EvCall CHybridLogin false;
                   EvWarn (label ++ " login attempt " ++ showNat a
                             ++ " failed: " ++ message e);
                   EvSleep 3000]))
        as (added & Hrun & Hcount); try lia.
      { intros j Hj. apply Hfirst. lia. }
      eexists. split; [rewrite Hrun, extend_extend, app_assoc; reflexivity|].
      rewrite count_app, Hcount. reflexivity.
Qed.

(** X6.  The loop stops at the first attempt that returns [true]: when
    that is attempt [k], it returns [true] after exactly [k] calls of
    [hybridLogin], and the last thing it does is that call. *)
Theorem login_loop_stops_at_first_success (k : nat) (s : St)
    (Hrange : (1 <= k <= N)%nat)
    (Hk : f k = Returns true)
    (Hfirst : forall j, (1 <= j < k)%nat -> f j <> Returns true) :
  exists added,
    loginLoop label f N s
    = (Normal true,
       {| trace := trace s ++ added ++ [EvCall CHybridLogin true];
          carrier := carrier s |})
    /\ count isLoginAttempt (added ++ [EvCall CHybridLogin true]) = k.
Proof.
  unfold loginLoop.
  destruct (loop_first_success k Hk (k - 1) 1%nat N s) as (added & Hrun & Hcount);
    try lia; [exact Hfirst|].
  exists added. split; [exact Hrun|].
  rewrite count_app, Hcount. cbn. lia.
Qed.

(** The loop when every remaining attempt returns [false]. *)
Lemma loop_all_false (r : nat) :
  forall a s,
    (a + r = N + 1)%nat ->
    (forall j, (a <= j <= N)%nat -> f j = Returns false) ->
    exists added,
      loginLoopFrom label f N r a s = (Normal false, extend s added)
      /\ count isLoginAttempt added = r
      /\ sleeps added = [].
Proof.
  induction r as [|r IH]; intros a s Hsum Hall.
  - exists []. cbn. unfold ret, extend. rewrite app_nil_r. destruct s. now repeat split.
  - cbn [loginLoopFrom]. unfold bind at 1.
    rewrite (attempt_returns a false s (Hall a ltac:(lia))).
    destruct (IH (S a) (extend s [EvCall CHybridLogin true;
                 EvWarn (label ++ " sequential login returned false")]))
      as (added & Hrun & Hcount & Hsl); try lia.
    { intros j Hj. apply Hall. lia. }
    eexists. split; [rewrite Hrun, extend_extend; reflexivity|].
    rewrite count_app, sleeps_app, Hcount, Hsl. split; reflexivity.
Qed.

(** X7.  An attempt that returns [false] without throwing is retried at
    once: when every attempt returns [false] the loop calls [hybridLogin]
    [maxAttempts] times, never sleeps, and ends with [loginSuccess] still
    [false]. *)
Theorem login_loop_retries_false_without_delay (s : St)
    (Hall : forall j, (1 <= j <= N)%nat -> f j = Returns false) :
  exists added,
    loginLoop label f N s
    = (Normal false, {| trace := trace s ++ added; carrier := carrier s |})
    /\ count isLoginAttempt added = N
    /\ sleeps added = [].
Proof.
  unfold loginLoop. apply loop_all_false; [lia | exact Hall].
Qed.

End Loop.

Lemma login_loop_stops_at_first_success_witness :
  exists added,
    loginLoop "Claude"
      (fun k => if Nat.eqb k 1 then Raises (mkError "timeout") else Returns true)
      maxLoginAttempts initial
    = (Normal true,
       {| trace := trace initial ++ added ++ [EvCall CHybridLogin true];
          carrier := carrier initial |})
    /\ count isLoginAttempt (added ++ [EvCall CHybridLogin true]) = 2%nat.
Proof.
  apply (login_loop_stops_at_first_success "Claude"
           (fun k => if Nat.eqb k 1 then Raises (mkError "timeout") else Returns true)
           maxLoginAttempts 2%nat initial).
  - unfold maxLoginAttempts. lia.
  - reflexivity.
  - intros j Hj. assert (j = 1%nat) by lia. subst j. discriminate.
Defined.

Lemma login_loop_retries_false_without_delay_witness :
  exists added,
    loginLoop "OpenAI Computer Use" alwaysFalse maxLoginAttempts initial
    = (Normal false, {| trace := trace initial ++ added; carrier := carrier initial |})
    /\ count isLoginAttempt added = maxLoginAttempts
    /\ sleeps added = [].
Proof.
  apply (login_loop_retries_false_without_delay "OpenAI Computer Use" alwaysFalse
           maxLoginAttempts initial).
  intros j _. reflexivity.
Defined.

End LoginLoopFacts.

(* ===================================================================== *)
(** ** The setup script *)
(* ===================================================================== *)

Module SetupFacts.
Import Setup BookingFacts.

Lemma string_app_assoc (a b c : string) : ((a ++ b) ++ c)%string = (a ++ b ++ c)%string.
Proof. induction a as [|x a IH]; cbn; [reflexivity | now rewrite IH]. Qed.

(** [trim] is idempotent. *)
Lemma trimStart_head (s : string) (c : ascii) (r : string) :
  trimStart s = String c r -> isTrimmable c = false.
Proof.
  induction s as [|a s IH]; cbn; [discriminate|].
  destruct (isTrimmable a) eqn:Ta; [exact IH|].
  intros E. injection E as <- _. exact Ta.
Qed.

Lemma trimEnd_head (c : ascii) (r : string) :
  isTrimmable c = false -> exists r', trimEnd (String c r) = String c r'.
Proof.
  intros Tc. cbn. destruct (trimEnd r); [rewrite Tc|]; eexists; reflexivity.
Qed.

Lemma trimEnd_cons (c : ascii) (r : string) :
  trimEnd (String c r)
  = match trimEnd r with
    | EmptyString => if isTrimmable c then EmptyString else String c EmptyString
    | kept => String c kept
    end.
Proof. reflexivity. Qed.

Lemma trimEnd_idempotent (s : string) : trimEnd (trimEnd s) = trimEnd s.
Proof.
  induction s as [|c s IH]; [reflexivity|].
  rewrite trimEnd_cons. destruct (trimEnd s) as [|k kept] eqn:E.
  - destruct (isTrimmable c) eqn:Tc; [reflexivity|].
    rewrite trimEnd_cons. cbn [trimEnd]. now rewrite Tc.
  - rewrite trimEnd_cons, IH. reflexivity.
Qed.

Lemma trim_idempotent (s : string) : trim (trim s) = trim s.
Proof.
  unfold trim. destruct (trimStart s) as [|c r] eqn:E; [reflexivity|].
  pose proof (trimStart_head s c r E) as Tc.
  destruct (trimEnd_head c r Tc) as [r' E'].
  rewrite E'. cbn [trimStart]. rewrite Tc, <- E'. apply trimEnd_idempotent.
Qed.

(** X8.  What [promptUser] resolves to: the default exactly when the typed
    answer is blank (or trims to the default), the trimmed answer
    otherwise; with a default that is non-blank and trimmed the result is
    never blank and trimming it again changes nothing. *)
Theorem prompt_value_is_trimmed_or_default (answer defaultValue : string) :
  (promptValue answer defaultValue = defaultValue
   <-> trim answer = "" \/ trim answer = defaultValue)
  /\ (promptValue answer defaultValue = trim answer
      \/ promptValue answer defaultValue = defaultValue)
  /\ (trim defaultValue = defaultValue -> defaultValue <> "" ->
      trim (promptValue answer defaultValue) = promptValue answer defaultValue
      /\ promptValue answer defaultValue <> "").
Proof.
  unfold promptValue. destruct (trim answer) as [|c r] eqn:E; cbn [truthyString].
  - split; [tauto|]. split; [now right|]. intros Ht Hne. split; assumption.
  - split; [split; [now right | intros [H|H]; [discriminate | exact H]]|].
    split; [now left|]. intros _ _. split; [|discriminate].
    rewrite <- E. apply trim_idempotent.
Qed.

Lemma prompt_value_is_trimmed_or_default_witness :
  promptValue "   " "gpt-4o-mini" = "gpt-4o-mini"
  /\ promptValue "  gpt-4o " "gpt-4o-mini" = "gpt-4o"
  /\ trim (promptValue "  gpt-4o " "gpt-4o-mini") = promptValue "  gpt-4o " "gpt-4o-mini".
Proof.
  split.
  { exact (proj2 (proj1 (prompt_value_is_trimmed_or_default "   " "gpt-4o-mini"))
                 (or_introl eq_refl)). }
  split; [reflexivity|].
  exact (proj1 (proj2 (proj2 (prompt_value_is_trimmed_or_default
                                "  gpt-4o " "gpt-4o-mini"))
                      eq_refl ltac:(discriminate))).
Defined.

(** Writes and what they leave of a file. *)
Lemma readFile_write (path p content : string) (fs : list (string * string)) :
  readFile path fs = None ->
  forall c, readFile p fs = Some c -> readFile p ((path, content) :: fs) = Some c.
Proof.
  intros Hnone c Hc. cbn. destruct (String.eqb path p) eqn:E; [|exact Hc].
  apply String.eqb_eq in E. subst p. congruence.
Qed.

Lemma env_after_example (content : string) (fs : list (string * string)) :
  readFile ".env" ((".env.example", content) :: fs) = readFile ".env" fs.
Proof. reflexivity. Qed.

Lemma in_added {A} (x e : A) (l : list A) : In x (l ++ [e]) -> In x l \/ x = e.
Proof.
  intros H. apply in_app_or in H. destruct H as [H|[H|[]]]; [now left | now right].
Qed.

(** Takes the next decision of the script: the outcome of a command or of
    a write, or whether a file is there. *)
Ltac decide_next :=
  match goal with
  | |- context [match ?o with Returns _ => _ | Raises _ => _ end] =>
      let E := fresh "E" in destruct o as [[]|?] eqn:E
  | |- context [match readFile ?p ?fs with Some _ => _ | None => _ end] =>
      let E := fresh "E" in destruct (readFile p fs) eqn:E
  end;
  cbn [fst snd files trace negb] in *.

Ltac unfold_setup :=
  unfold run, setup, createEnvExample, existsSync, promptUser, writeFileSync, execSync,
    tryCatch, bind, emit, modifyState, getState, ret, throw, processExit;
  cbn [fst snd files trace negb].

(** X9.  [setup] never overwrites a file.  Every file that is there once
    the installation commands have run has the same content when the
    script ends, whatever the commands, the user and the disk do; and the
    script itself writes nothing but [.env.example] and [.env], each only
    when the commands have left no such file.  In particular an [.env]
    with credentials in it survives a second run. *)
Theorem setup_keeps_existing_files (w : World) (d : Disk) :
  let after := snd (run w d) in
  (forall p c,
     readFile p (afterCommands w (files d)) = Some c ->
     readFile p (files after) = Some c)
  /\ (forall path content returned,
        In (EvWrite path content returned) (trace after) ->
        In (EvWrite path content returned) (trace d)
        \/ (path = ".env.example" \/ path = ".env")
           /\ readFile path (afterCommands w (files d)) = None).
Proof.
  cbn zeta. unfold afterCommands. unfold_setup.
  repeat decide_next;
    rewrite ?env_after_example in *;
    (split;
     [ intros p c Hc; repeat (apply readFile_write; [assumption|]); exact Hc
     | intros path content returned Hin;
       repeat (apply in_added in Hin; destruct Hin as [Hin|Hin]);
       first [ now left
             | discriminate Hin
             | injection Hin as -> _ _; right; split; [now left | assumption]
             | injection Hin as -> _ _; right; split; [now right | assumption] ] ]).
Qed.

Lemma setup_keeps_existing_files_witness :
  let w := {| execSync_outcome := fun _ => Returns tt;
              execSync_files := fun _ fs => ("package-lock.json", "{}") :: fs;
              typed := fun _ => "gpt-4o";
              writeFileSync_outcome := fun _ _ => Returns tt |} in
  let d := {| files := [(".env", "MAERSK_PASSWORD=secret")]; trace := [] |} in
  readFile ".env" (files (snd (run w d))) = Some "MAERSK_PASSWORD=secret".
Proof.
  exact (proj1 (setup_keeps_existing_files
                  {| execSync_outcome := fun _ => Returns tt;
                     execSync_files := fun _ fs => ("package-lock.json", "{}") :: fs;
                     typed := fun _ => "gpt-4o";
                     writeFileSync_outcome := fun _ _ => Returns tt |}
                  {| files := [(".env", "MAERSK_PASSWORD=secret")]; trace := [] |})
               ".env" "MAERSK_PASSWORD=secret" eq_refl).
Defined.

(** X10.  When [npm install] fails the script ends with code 1 at once:
    the browser is not installed, nothing is asked and nothing is written.
    A failure of the browser installation, in contrast, is only reported
    and the script goes on to the configuration files. *)
Theorem failed_install_stops_setup (w : World) (d : Disk) (e : JsError)
    (Hnpm : execSync_outcome w "npm install" = Raises e) :
  run w d = (Exits 1, {| files := execSync_files w "npm install" (files d);
                         trace := trace d ++ [EvExec "npm install" false] |}).
Proof.
  unfold_setup. rewrite Hnpm. reflexivity.
Qed.

Lemma failed_install_stops_setup_witness :
  let w := {| execSync_outcome := fun _ => Raises (mkError "ENOENT npm");
              execSync_files := fun _ fs => fs;
              typed := fun _ => "";
              writeFileSync_outcome := fun _ _ => Returns tt |} in
  run w {| files := []; trace := [] |}
  = (Exits 1, {| files := []; trace := [EvExec "npm install" false] |}).
Proof.
  exact (failed_install_stops_setup
           {| execSync_outcome := fun _ => Raises (mkError "ENOENT npm");
              execSync_files := fun _ fs => fs;
              typed := fun _ => "";
              writeFileSync_outcome := fun _ _ => Returns tt |}
           {| files := []; trace := [] |} (mkError "ENOENT npm") eq_refl).
Defined.

(** X11.  On a directory in which the installation commands leave no
    [.env], when [npm install] and the writes succeed, [setup] creates
    [.env] from the template followed by a [MODEL_NAME] line and a
    [COMPUTER_USE_MODEL] line.  The second line is always there: leaving
    the answer empty selects the default model, it does not leave the line
    out. *)
Theorem setup_writes_both_model_lines (w : World) (d : Disk)
    (Hnpm : execSync_outcome w "npm install" = Returns tt)
    (Hwrite : forall path content, writeFileSync_outcome w path content = Returns tt)
    (Hfresh : readFile ".env" (afterCommands w (files d)) = None) :
  readFile ".env" (files (snd (run w d)))
  = Some (envExample ++ newline ++ "# AI Model Configuration" ++ newline
            ++ "MODEL_NAME=" ++ promptValue (typed w modelQuestion) "gpt-4o-mini"
            ++ newline
            ++ "COMPUTER_USE_MODEL="
            ++ promptValue (typed w computerUseQuestion) "claude-3-7-sonnet-20250219"
            ++ newline)
  /\ fst (run w d) = Normal tt.
Proof.
  assert (Hcum : truthyString
                   (trim (promptValue (typed w computerUseQuestion)
                            "claude-3-7-sonnet-20250219")) = true).
  { destruct (prompt_value_is_trimmed_or_default (typed w computerUseQuestion)
                "claude-3-7-sonnet-20250219") as (_ & _ & H).
    destruct (H eq_refl ltac:(discriminate)) as [Ht Hne]. rewrite Ht.
    destruct (promptValue _ _); [now destruct Hne | reflexivity]. }
  unfold afterCommands in Hfresh. rewrite Hnpm in Hfresh.
  assert (Hrun : exists dF,
            run w d = (Normal tt, dF)
            /\ readFile ".env" (files dF)
               = Some (envContent envExample
                         (promptValue (typed w modelQuestion) "gpt-4o-mini")
                         (promptValue (typed w computerUseQuestion)
                            "claude-3-7-sonnet-20250219"))).
  { unfold_setup. rewrite Hnpm. cbn [fst snd files trace negb].
    destruct (execSync_outcome w "npx playwright install chromium") as [[]|pe];
      cbn [fst snd files trace negb];
      (destruct (readFile ".env.example" _); cbn [fst snd files trace negb];
       rewrite ?Hwrite; cbn [fst snd files trace negb];
       rewrite ?env_after_example, Hfresh; cbn [fst snd files trace negb];
       rewrite ?Hwrite; eexists; (split; [reflexivity|]);
       cbn [files readFile]; now rewrite String.eqb_refl). }
  destruct Hrun as (dF & Erun & Hfile). rewrite Erun. cbn [fst snd].
  split; [|reflexivity]. rewrite Hfile. unfold envContent. rewrite Hcum.
  rewrite !string_app_assoc. reflexivity.
Qed.

Lemma setup_writes_both_model_lines_witness :
  let w := {| execSync_outcome := fun _ => Returns tt;
              execSync_files := fun _ fs => ("package-lock.json", "{}") :: fs;
              typed := fun _ => "";
              writeFileSync_outcome := fun _ _ => Returns tt |} in
  readFile ".env" (files (snd (run w {| files := []; trace := [] |})))
  = Some (envExample ++ newline ++ "# AI Model Configuration" ++ newline
            ++ "MODEL_NAME=gpt-4o-mini" ++ newline
            ++ "COMPUTER_USE_MODEL=claude-3-7-sonnet-20250219" ++ newline).
Proof.
  exact (proj1 (setup_writes_both_model_lines
                  {| execSync_outcome := fun _ => Returns tt;
                     execSync_files := fun _ fs => ("package-lock.json", "{}") :: fs;
                     typed := fun _ => "";
                     writeFileSync_outcome := fun _ _ => Returns tt |}
                  {| files := []; trace := [] |} eq_refl (fun _ _ => eq_refl) eq_refl)).
Defined.

End SetupFacts.

(* ===================================================================== *)
(** ** The Claude carrier *)
(* ===================================================================== *)

Module ClaudeCarrierFacts.
Import ClaudeCarrier.

(** Runs a method of the carrier down to the answers of the world, taking
    the outermost pending answer first. *)
Ltac answer_next :=
  match goal with
  | |- context [match ?o with Returns _ => _ | Raises _ => _ end] =>
      let E := fresh "E" in destruct o eqn:E
  end.

Ltac unfold_carrier :=
  unfold hybridLogin, submitBookingForm, clickLoginLink, click, fill, execute,
    onPage, takeScreenshot, close, perform, propOf, sleep, emit, tryCatch, bind,
    getState, modifyState, ret, throw;
  cbn [baseUrl username password stagehand page agent history fst snd].

Ltac run_carrier :=
  unfold_carrier;
  repeat (answer_next;
          cbn [baseUrl username password stagehand page agent history fst snd]).

(** X12.  [hybridLogin] never returns [false] and never ends the process:
    it returns [true], and then the page address passed the portal test,
    or it throws, and then the last thing it did was to log the warning
    carrying the message of the very error it throws. *)
Theorem hybridLogin_returns_true_or_rethrows (w : World) (c : Carrier) :
  let run := hybridLogin w c in
  match fst run with
  | Normal b => b = true /\ onPortal (urlAfter w (history (snd run))) = true
  | Throws e =>
      exists earlier,
        history (snd run) = EvWarn ("Claude login failed: " ++ message e) :: earlier
  | Exits _ => False
  end.
Proof.
  cbn zeta. destruct c as [url user pass sh [|] [|] h]; run_carrier;
    try (eexists; reflexivity);
    match goal with
    | |- context [onPortal ?u] => destruct (onPortal u) eqn:Hp; cbn
    end;
    try (eexists; reflexivity); (split; [reflexivity | exact Hp]).
Qed.

(** X13.  [hybridLogin] is browser-first: it calls the agent only
    directly after a click or a fill that failed, at most three times, and
    never more often than browser steps failed (so not at all when none
    fails). *)
Theorem hybridLogin_is_browser_first (w : World) (c : Carrier)
    (Hbefore : agentOnlyAfterFailure (history c) = true) :
  let after := history (snd (hybridLogin w c)) in
  agentOnlyAfterFailure after = true
  /\ (agentCallCount after <= agentCallCount (history c) + 3)%nat
  /\ (agentCallCount after + failedBrowserSteps (history c)
      <= agentCallCount (history c) + failedBrowserSteps after)%nat.
Proof.
  cbn zeta. destruct c as [url user pass sh [|] [|] h];
    cbn [history] in Hbefore; run_carrier;
    try match goal with
        | |- context [onPortal ?u] => destruct (onPortal u)
        end;
    cbn [history fst snd agentOnlyAfterFailure isAgentCall isFailedBrowserStep andb];
    rewrite ?Hbefore; unfold agentCallCount, failedBrowserSteps;
    cbn [filter isAgentCall isFailedBrowserStep List.length];
    (split; [reflexivity|]); split; lia.
Qed.

Lemma hybridLogin_is_browser_first_witness :
  let w := {| respond := fun _ a =>
                match a with
                | PageClick SelLogIn => Raises (mkError "no such element")
                | PageClick SelAcceptCookies => Raises (mkError "no dialog")
                | _ => Returns VUndefined
                end;
              urlAfter := fun _ => "https://www.maersk.com/book/" |} in
  let c := {| baseUrl := "https://www.maersk.com"; username := "user";
              password := "secret"; stagehand := true; page := true; agent := true;
              history := [] |} in
  fst (hybridLogin w c) = Normal true
  /\ agentCallCount (history (snd (hybridLogin w c))) = 0%nat
  /\ agentOnlyAfterFailure (history (snd (hybridLogin w c))) = true.
Proof.
  cbn zeta. split; [reflexivity|]. split; [reflexivity|].
  exact (proj1 (hybridLogin_is_browser_first
                  {| respond := fun _ a =>
                       match a with
                       | PageClick SelLogIn => Raises (mkError "no such element")
                       | PageClick SelAcceptCookies => Raises (mkError "no dialog")
                       | _ => Returns VUndefined
                       end;
                     urlAfter := fun _ => "https://www.maersk.com/book/" |}
                  {| baseUrl := "https://www.maersk.com"; username := "user";
                     password := "secret"; stagehand := true; page := true;
                     agent := true; history := [] |} eq_refl)).
Defined.

(** X14.  [submitBookingForm] never reports a failed submission by its
    result: it returns [{success: true}] or throws, after logging the
    failure line with the message of the error it throws.  With a page, it
    calls the agent only directly after the browser-first click failed. *)
Theorem submitBookingForm_succeeds_or_rethrows (w : World) (c : Carrier) :
  let run := submitBookingForm w c in
  match fst run with
  | Normal r => Pipeline.submitSuccess r = true
  | Throws e =>
      exists earlier,
        history (snd run) = EvFail ("Form submission failed: " ++ message e) :: earlier
  | Exits _ => False
  end
  /\ (page c = true -> agentOnlyAfterFailure (history c) = true ->
      agentOnlyAfterFailure (history (snd run)) = true).
Proof.
  cbn zeta. destruct c as [url user pass sh [|] [|] h]; unfold_carrier;
    repeat (first [ answer_next
                  | match goal with
                    | |- context [match ?v with VUndefined => _ | _ => _ end] =>
                        destruct v
                    end ];
            cbn [baseUrl username password stagehand page agent history fst snd]);
    (split; [first [reflexivity | eexists; reflexivity]|]);
    intros Hp Hb; try discriminate Hp;
    cbn [history agentOnlyAfterFailure isAgentCall isFailedBrowserStep andb] in *;
    rewrite ?Hb; reflexivity.
Qed.

(** Under a world in which every action returns an object. *)
Ltac answer_object Hobj :=
  match goal with
  | |- context [match respond ?w ?h ?a with Returns _ => _ | Raises _ => _ end] =>
      let f := fresh "f" in
      let E := fresh "E" in
      destruct (Hobj h a) as [f E]; rewrite E
  end.

Lemma valid_booking_fields (b : Booking.BookingDetails) :
  Booking.validate b = (Normal [], b) ->
  Booking.fillBookingForm_guard b = (Normal tt, b)
  /\ (exists l, Booking.origin b = Some l)
  /\ (exists l, Booking.destination b = Some l)
  /\ (exists x rest, Booking.containers b = Some (x :: rest)).
Proof.
  intros Hval.
  assert (Hguard : Booking.fillBookingForm_guard b = (Normal tt, b))
    by (unfold Booking.fillBookingForm_guard, bind; now rewrite Hval).
  split; [exact Hguard|].
  unfold Booking.validate, bind, getState, ret in Hval.
  injection Hval as Hval.
  apply BookingFacts.pushIf_nil in Hval as [_ Hval].
  apply BookingFacts.pushIf_nil in Hval as [_ Hval].
  apply BookingFacts.pushIf_nil in Hval as [Hc Hval].
  apply BookingFacts.pushIf_nil in Hval as [Hd Hval].
  apply BookingFacts.pushIf_nil in Hval as [Ho _].
  apply BookingFacts.locationMissing_false in Ho as (lo & Ho & _).
  apply BookingFacts.locationMissing_false in Hd as (ld & Hd & _).
  apply BookingFacts.containersMissing_false in Hc as (cs & Hc & Hne).
  split; [now exists lo|]. split; [now exists ld|].
  destruct cs as [|x rest]; [now destruct Hne|]. now exists x, rest.
Qed.

(** X15.  Validation does not look at the transport fields.  A booking
    without [originTransport] passes [validate]; [fillBookingForm] then
    lets the agent fill origin, destination and commodity, scroll and set
    the container (five agent calls) before it fails with the
    [TypeError] of reading [type] of [undefined]. *)
Theorem missing_transport_fails_midway
    (w : World) (b : Booking.BookingDetails) (c : Carrier)
    (Hval : Booking.validate b = (Normal [], b))
    (Hnone : Booking.originTransport b = None)
    (Hpage : page c = true) (Hagent : agent c = true)
    (Hobj : forall h a, exists fields, respond w h a = Returns (VObj fields)) :
  let run := fillBookingForm w b c in
  fst run = Throws (mkError "Cannot read properties of undefined (reading 'type')")
  /\ agentCallCount (history (snd run)) = (agentCallCount (history c) + 5)%nat.
Proof.
  destruct (valid_booking_fields b Hval)
    as (Hguard & [lo Ho] & [ld Hd] & (x & rest & Hc)).
  destruct c as [url user pass sh pg ag h]. cbn in Hpage, Hagent. subst pg ag.
  cbn zeta. unfold fillBookingForm, onObject. rewrite Hguard, Ho, Hd, Hc, Hnone.
  unfold agentStep, locationText, isStoreDoor. unfold_carrier.
  repeat (answer_object Hobj;
          cbn [baseUrl username password stagehand page agent history fst snd]).
  split; [reflexivity|].
  unfold agentCallCount. cbn [filter isAgentCall List.length]. lia.
Qed.

Lemma missing_transport_fails_midway_witness :
  let w := {| respond := fun _ _ => Returns (VObj [("message", VStr "done")]);
              urlAfter := fun _ => "https://www.maersk.com/book/" |} in
  let b := {| Booking.origin :=
                Some {| Booking.city := Some "Houston"; Booking.country := Some "US";
                        Booking.isPort := true |};
              Booking.destination :=
                Some {| Booking.city := Some "Iquique"; Booking.country := Some "Chile";
                        Booking.isPort := true |};
              Booking.originTransport := None;
              Booking.destinationTransport := None;
              Booking.containers :=
                Some [ {| Booking.containerType := "DRY"; Booking.size := "20";
                          Booking.quantity := 1; Booking.weightKg := 4000 |} ];
              Booking.commodity := Some "Electronics";
              Booking.readyDate := Some 0;
              Booking.requiresTemperatureControl := false;
              Booking.isDangerousCargo := false;
              Booking.isPriceOwner := true |} in
  let c := {| baseUrl := "https://www.maersk.com"; username := "user";
              password := "secret"; stagehand := true; page := true; agent := true;
              history := [] |} in
  fst (Booking.validate b) = Normal []
  /\ fst (fillBookingForm w b c)
     = Throws (mkError "Cannot read properties of undefined (reading 'type')")
  /\ agentCallCount (history (snd (fillBookingForm w b c))) = 5%nat.
Proof.
  cbn zeta. split; [reflexivity|].
  apply (missing_transport_fails_midway
           {| respond := fun _ _ => Returns (VObj [("message", VStr "done")]);
              urlAfter := fun _ => "https://www.maersk.com/book/" |}).
  - reflexivity.
  - reflexivity.
  - reflexivity.
  - reflexivity.
  - intros h a. eexists; reflexivity.
Defined.

(** None of the carrier's operations ends the process. *)
Import Triples TripleRules.

Lemma neverExits_emit (e : Event) : neverExits (emit e).
Proof. apply neverExits_modify. Qed.

Lemma neverExits_perform (w : World) (a : Action) : neverExits (perform w a).
Proof.
  intros s n. unfold perform, bind, getState, emit, modifyState, ret, throw.
  destruct (respond w (history s) a); discriminate.
Qed.

Lemma neverExits_onPage (w : World) (method : string) (a : Action) :
  neverExits (onPage w method a).
Proof.
  unfold onPage. apply neverExits_bind; [apply neverExits_getState|].
  intros c. destruct (page c); [apply neverExits_perform | apply neverExits_throw].
Qed.

Lemma neverExits_execute (w : World) (t : Task) : neverExits (execute w t).
Proof.
  unfold execute. apply neverExits_bind; [apply neverExits_getState|].
  intros c. destruct (agent c); [apply neverExits_perform | apply neverExits_throw].
Qed.

Lemma neverExits_propOf (v : JsVal) (name : string) : neverExits (propOf v name).
Proof. intros s n. destruct v; discriminate. Qed.

Lemma neverExits_takeScreenshot (w : World) (f : string) :
  neverExits (takeScreenshot w f).
Proof.
  unfold takeScreenshot. apply neverExits_bind; [apply neverExits_getState|].
  intros c. destruct (page c); [|apply neverExits_ret].
  apply neverExits_bind; [apply neverExits_perform | intros; apply neverExits_ret].
Qed.

Lemma neverExits_agentStep (w : World) (t : Task) : neverExits (agentStep w t).
Proof.
  unfold agentStep. apply neverExits_bind; [apply neverExits_execute|]. intros r.
  apply neverExits_bind; [apply neverExits_propOf | intros; apply neverExits_ret].
Qed.

Lemma neverExits_guard (b : Booking.BookingDetails) :
  neverExits (onObject (T := Booking.BookingDetails) b Booking.fillBookingForm_guard).
Proof.
  intros s n. unfold onObject. cbn [fst].
  apply PipelineInvariants.guard_never_exits.
Qed.

Ltac carrier_no_exit :=
  unfold sleep, locationText, isStoreDoor;
  repeat first
    [ apply neverExits_guard
    | apply neverExits_agentStep
    | apply neverExits_takeScreenshot
    | apply neverExits_execute
    | apply neverExits_onPage
    | apply neverExits_propOf
    | apply neverExits_emit
    | apply neverExits_ret
    | apply neverExits_throw
    | apply neverExits_bind; [|intros ?]
    | match goal with
      | |- neverExits (if ?b then _ else _) => destruct b
      | |- neverExits (match ?x with _ => _ end) => destruct x
      end ].

(** X16.  What [fillBookingForm] returns is decided by its last action,
    the extraction that checks the page: [canContinue] is [true] exactly
    when that extraction reports [isOnRatesPage] or [hasRates], and
    [success] always equals [canContinue].  A negative result is returned
    after the warning that the form page may still be shown, a positive
    one directly after the extraction.  The process is not ended. *)
Theorem fillBookingForm_reports_the_rates_page
    (w : World) (b : Booking.BookingDetails) (c : Carrier) :
  let run := fillBookingForm w b c in
  match fst run with
  | Normal r =>
      exists earlier v,
        history (snd run)
        = ((if Pipeline.canContinue r then [] else [EvWarn formPageWarning])
           ++ EvDo (PageExtract formCheck) true :: earlier)%list
        /\ respond w earlier (PageExtract formCheck) = Returns v
        /\ Pipeline.canContinue r
           = (truthy (field v "isOnRatesPage") || truthy (field v "hasRates"))%bool
        /\ Pipeline.formSuccess r = Pipeline.canContinue r
  | Throws _ => True
  | Exits _ => False
  end.
Proof.
  cbn zeta.
  set (N := fun (r : Pipeline.FormResult) (s : Carrier) =>
              exists earlier v,
                history s
                = ((if Pipeline.canContinue r then [] else [EvWarn formPageWarning])
                   ++ EvDo (PageExtract formCheck) true :: earlier)%list
                /\ respond w earlier (PageExtract formCheck) = Returns v
                /\ Pipeline.canContinue r
                   = (truthy (field v "isOnRatesPage") || truthy (field v "hasRates"))%bool
                /\ Pipeline.formSuccess r = Pipeline.canContinue r).
  assert (H : triple (fun _ => True) (fillBookingForm w b) N
                (fun _ _ => True) (fun _ _ => False)).
  { unfold fillBookingForm.
    apply triple_tryCatch with (T' := fun _ _ => True).
    - repeat (lazymatch goal with
              | |- triple _ (bind (onPage _ _ (PageExtract _)) _) _ _ _ => fail
              | |- triple _ (bind _ _) _ _ _ =>
                  apply triple_after; [carrier_no_exit | intros ?]
              end).
      intros s _. unfold onPage, perform, propOf, emit, modifyState, bind, getState,
        ret, throw.
      subst N. unfold formCheck.
      destruct (page s); cbn [fst snd]; [|exact I].
      match goal with
      | |- context [respond w (history s) ?a] =>
          destruct (respond w (history s) a) as [v|e] eqn:E
      end; cbn [fst snd]; [|exact I].
      destruct v; cbn; try exact I;
        try match goal with
            | |- context [if ?t then _ else _] => destruct t eqn:Ht
            end;
        cbn; eexists; eexists; (split; [reflexivity|]); (split; [exact E|]);
        cbn [field]; rewrite ?Ht; split; reflexivity.
    - intros e.
      apply triple_after; [carrier_no_exit|]. intros _.
      apply triple_after; [carrier_no_exit|]. intros _.
      now apply triple_throw. }
  specialize (H c I). unfold post in H.
  destruct (fst (fillBookingForm w b c)); [exact H | exact I | exact H].
Qed.

(** *** The classifier of credential and security errors *)

Lemma toLowerCase_app (a b : string) :
  toLowerCase (a ++ b) = (toLowerCase a ++ toLowerCase b)%string.
Proof. induction a as [|x a IH]; cbn; [reflexivity | now rewrite IH]. Qed.

Lemma includes_toLowerCase (n h : string) :
  includes n h = true -> includes (toLowerCase n) (toLowerCase h) = true.
Proof.
  intros H. apply RateLimitFacts.includes_spec in H as (a & b & ->).
  apply RateLimitFacts.includes_spec.
  exists (toLowerCase a), (toLowerCase b). now rewrite !toLowerCase_app.
Qed.

(** X17.  [_isCredentialOrSecurityError] does not depend on letter case:
    an error whose message contains one of the six keywords, written in
    any mix of upper and lower case, is classified as a credential or
    security error. *)
Theorem security_keywords_match_in_any_case
    (error : JsError) (keyword written : string)
    (Hkey : In keyword securityKeywords)
    (Hcase : toLowerCase written = keyword)
    (Hin : includes written (message error) = true) :
  _isCredentialOrSecurityError error = true.
Proof.
  apply includes_toLowerCase in Hin. rewrite Hcase in Hin.
  unfold _isCredentialOrSecurityError.
  cbn in Hkey.
  destruct Hkey as [<-|[<-|[<-|[<-|[<-|[<-|[]]]]]]]; rewrite Hin;
    rewrite ?orb_true_r; reflexivity.
Qed.

Lemma security_keywords_match_in_any_case_witness :
  _isCredentialOrSecurityError (mkError "Please solve the CAPTCHA to continue") = true.
Proof.
  apply (security_keywords_match_in_any_case
           (mkError "Please solve the CAPTCHA to continue") "captcha" "CAPTCHA").
  - cbn. tauto.
  - reflexivity.
  - reflexivity.
Defined.

(** X24.  [initBrowser] of the Claude carrier falls back to the standard
    agent: a failure to create the Claude agent is logged as a warning and
    never fails the method by itself.  The method returns with the Stagehand
    object set, after one of the two agents was created; it throws only the
    error of the constructor, of [init], of reading the page or of the
    fallback agent.  Once the constructor has returned the carrier keeps the
    Stagehand object whatever happens next, so that a later [close] still
    reaches [stagehand.close()]. *)
Theorem initBrowser_falls_back_to_the_standard_agent
    (w : World) (headless : bool) (c : Carrier) :
  let run := initBrowser w headless c in
  match fst run with
  | Normal _ =>
      stagehand (snd run) = true
      /\ exists earlier,
           history (snd run) = EvDo (StagehandAgent true) true :: earlier
           \/ history (snd run)
              = EvDo (StagehandAgent false) true :: EvWarn agentFallbackWarning
                  :: EvDo (StagehandAgent true) false :: earlier
  | Throws e =>
      exists a earlier,
        history (snd run) = EvDo a false :: earlier
        /\ respond w earlier a = Raises e
        /\ a <> StagehandAgent true
        /\ (a = NewStagehand headless /\ snd run = snd (perform w a c)
            \/ stagehand (snd run) = true
               /\ exists closed,
                    history (snd (close w (snd run)))
                    = EvDo StagehandClose closed :: history (snd run))
  | Exits _ => False
  end.
Proof.
  cbn zeta. destruct c as [url user pass sh pg ag h].
  unfold initBrowser, assign, perform, emit, tryCatch, bind, getState, modifyState,
    ret, throw.
  cbn [baseUrl username password stagehand page agent history fst snd].
  repeat (answer_next;
          cbn [baseUrl username password stagehand page agent history fst snd]);
  first
    [ split; [reflexivity | eexists; (left + right); reflexivity]
    | eexists; eexists; (split; [reflexivity|]); (split; [eassumption|]);
      (split; [discriminate|]);
      first
        [ left; (split; [reflexivity|]);
          unfold perform, emit, bind, getState, modifyState, ret, throw;
          cbn [history];
          match goal with H : respond _ _ _ = _ |- _ => rewrite H end; reflexivity
        | right; (split; [reflexivity|]);
          unfold close, perform, emit, bind, getState, modifyState, ret, throw;
          cbn [baseUrl username password stagehand page agent history fst snd];
          match goal with
          | |- context [respond ?w' ?h' StagehandClose] =>
              destruct (respond w' h' StagehandClose)
          end; eexists; reflexivity ] ].
Qed.

End ClaudeCarrierFacts.

(* ===================================================================== *)
(** ** The Browser Use carrier *)
(* ===================================================================== *)

Module BrowserUseCarrierFacts.
Import BrowserUseCarrier.

Ltac answer_next :=
  match goal with
  | |- context [match ?o with Returns _ => _ | Raises _ => _ end] =>
      let E := fresh "E" in destruct o eqn:E
  end.

Ltac run_carrier :=
  unfold initBrowser, close, hybridLogin, verifyBookingPage, submitBookingForm, run,
    perform, setAgent, emit, tryCatch, bind, getState, modifyState, ret, throw;
  cbn [username password agent history browserContext fst snd];
  repeat (answer_next; cbn [username password agent history browserContext fst snd]).

(** X18.  [close] of the Browser Use carrier never throws.  It calls
    [cleanup] at most once, and either the agent is gone afterwards or the
    cleanup threw and a warning was logged; on a carrier without agent it
    does nothing, so closing twice is harmless. *)
Theorem close_never_throws (w : World) (c : Carrier) :
  let after := snd (close w c) in
  fst (close w c) = Normal tt
  /\ (agent after = None /\ (count isCleanup (history after)
                             <= count isCleanup (history c) + 1)%nat
      \/ exists text, history after = EvWarn text :: EvDo Cleanup false :: history c)
  /\ (agent c = None -> close w c = (Normal tt, c)).
Proof.
  cbn zeta. destruct c as [user pass [[[|]]|] h]; run_carrier;
    (split; [reflexivity|]); (split; [|intros; try discriminate; reflexivity]);
    try (left; split; [reflexivity | unfold count; cbn; lia]).
  right. eexists; reflexivity.
Qed.

(** X19.  The stage methods of the Browser Use carrier never report a
    soft failure: [hybridLogin] returns [true], [verifyBookingPage] a page
    with booking form and location fields, [fillBookingForm] a form that
    can be continued and [submitBookingForm] a successful submission, or
    they throw.  None of them ends the process. *)
Theorem stage_methods_succeed_or_throw (w : World) (c : Carrier)
    (b : Booking.BookingDetails) :
  match fst (hybridLogin w c) with
  | Normal ok => ok = true | Throws _ => True | Exits _ => False
  end
  /\ match fst (verifyBookingPage w c) with
     | Normal pa => Pipeline.hasBookingForm pa = true
                    /\ Pipeline.hasLocationFields pa = true
     | Throws _ => True | Exits _ => False
     end
  /\ match fst (fillBookingForm w b c) with
     | Normal fr => Pipeline.canContinue fr = true
     | Throws _ => True | Exits _ => False
     end
  /\ match fst (submitBookingForm w c) with
     | Normal sr => Pipeline.submitSuccess sr = true
     | Throws _ => True | Exits _ => False
     end.
Proof.
  split; [destruct c as [user pass [a|] h]; run_carrier; auto|].
  split; [destruct c as [user pass [a|] h]; run_carrier; auto|].
  split; [|destruct c as [user pass [a|] h]; run_carrier; auto].
  unfold fillBookingForm, onObject, locationText, isStoreDoor.
  pose proof (PipelineInvariants.guard_never_exits b) as Hg.
  destruct (Booking.fillBookingForm_guard b) as [[[]|ge|gn] b'];
    [| |now destruct (Hg gn)];
    destruct (Booking.origin b), (Booking.destination b),
      (Booking.originTransport b), (Booking.destinationTransport b);
    destruct c as [user pass [a|] h]; run_carrier; auto.
Qed.

(** X20.  The Browser Use carrier reads the transport fields while it
    builds its task: a booking that passes validation but lacks
    [originTransport] makes [fillBookingForm] throw the [TypeError] before
    the agent is run at all; only the failure line is logged. *)
Theorem missing_transport_fails_before_the_agent
    (w : World) (b : Booking.BookingDetails) (c : Carrier)
    (Hval : Booking.validate b = (Normal [], b))
    (Hnone : Booking.originTransport b = None) :
  fillBookingForm w b c
  = (Throws (mkError "Cannot read properties of undefined (reading 'type')"),
     {| username := username c; password := password c; agent := agent c;
        history := EvFail "Browser Use form filling failed: Cannot read properties of undefined (reading 'type')"
                   :: history c |}).
Proof.
  destruct (ClaudeCarrierFacts.valid_booking_fields b Hval)
    as (Hguard & [lo Ho] & [ld Hd] & _).
  unfold fillBookingForm, onObject, locationText, isStoreDoor.
  rewrite Hguard, Ho, Hd, Hnone. reflexivity.
Qed.

Lemma missing_transport_fails_before_the_agent_witness :
  let b := {| Booking.origin :=
                Some {| Booking.city := Some "Houston"; Booking.country := Some "US";
                        Booking.isPort := true |};
              Booking.destination :=
                Some {| Booking.city := Some "Iquique"; Booking.country := Some "Chile";
                        Booking.isPort := true |};
              Booking.originTransport := None;
              Booking.destinationTransport := None;
              Booking.containers :=
                Some [ {| Booking.containerType := "DRY"; Booking.size := "20";
                          Booking.quantity := 1; Booking.weightKg := 4000 |} ];
              Booking.commodity := Some "Electronics";
              Booking.readyDate := Some 0;
              Booking.requiresTemperatureControl := false;
              Booking.isDangerousCargo := false;
              Booking.isPriceOwner := true |} in
  let w := {| respond := fun _ _ => Returns VUndefined;
              createdWithContext := fun _ => true |} in
  let c := {| username := "user"; password := "secret";
              agent := Some {| browserContext := true |}; history := [] |} in
  fst (Booking.validate b) = Normal []
  /\ fillBookingForm w b c
     = (Throws (mkError "Cannot read properties of undefined (reading 'type')"),
        {| username := "user"; password := "secret";
           agent := Some {| browserContext := true |};
           history := [EvFail "Browser Use form filling failed: Cannot read properties of undefined (reading 'type')"] |}).
Proof.
  cbn zeta. split; [reflexivity|].
  apply (missing_transport_fails_before_the_agent
           {| respond := fun _ _ => Returns VUndefined;
              createdWithContext := fun _ => true |}).
  - reflexivity.
  - reflexivity.
Defined.

End BrowserUseCarrierFacts.

(* ===================================================================== *)
(** ** Runs of the two scripts *)
(* ===================================================================== *)

Module PipelineRunFacts.
Import Pipeline PipelineReading PipelineInvariants PipelineFacts Triples TripleRules.

(** A sound step followed by the rest. *)
Lemma triple_step {A B} (J : St -> Prop) (Q : A -> Prop) (m : M A) (k : A -> M B)
    (N : B -> St -> Prop) (T : JsError -> St -> Prop) (X : Z -> St -> Prop) :
  sound J Q m -> (forall e s, J s -> T e s) ->
  (forall a, Q a -> triple J (k a) N T X) ->
  triple J (bind m k) N T X.
Proof.
  intros Hm HT Hk s Hs. destruct (Hm s Hs) as (HJ & HQ & HX). unfold bind.
  destruct (m s) as [[a|e|n] s']; cbn [fst snd post] in *.
  - exact (Hk a (HQ a eq_refl) s' HJ).
  - now apply HT.
  - now destruct (HX n).
Qed.

Lemma sound_triple {A} (J : St -> Prop) (Q : A -> Prop) (m : M A) :
  sound J Q m ->
  triple J m (fun a s => J s /\ Q a) (fun _ s => J s) (fun _ _ => False).
Proof.
  intros Hm s Hs. destruct (Hm s Hs) as (HJ & HQ & HX).
  destruct (m s) as [[a|e|n] s']; cbn [fst snd post] in *; auto.
  now destruct (HX n).
Qed.

(** *** What [extractMaerskRates] leaves in the results file *)

Lemma nothingWritten_benign (e : Event) (s : St) :
  benign e = true -> nothingWritten s ->
  nothingWritten {| trace := trace s ++ [e]; carrier := carrier s |}.
Proof.
  unfold nothingWritten. cbn [trace]. intros He Hs.
  now rewrite writtenDocuments_app, Hs, benign_not_written.
Qed.

Lemma nothingWritten_carrier (s : St) (c : option CarrierObj) :
  isSome c = isSome (carrier s) -> nothingWritten s ->
  nothingWritten {| trace := trace s; carrier := c |}.
Proof. intros _ Hs. exact Hs. Qed.

Lemma nothingWritten_constructed (s : St) (c : CarrierObj) :
  nothingWritten s ->
  nothingWritten {| trace := trace s ++ [EvCall CNewCarrier true]; carrier := Some c |}.
Proof.
  unfold nothingWritten. cbn [trace]. intros Hs.
  now rewrite writtenDocuments_app, Hs.
Qed.

Lemma nothingWritten_onSuccessOnly (s : St) : nothingWritten s -> writtenOnSuccessOnly s.
Proof.
  unfold nothingWritten, writtenOnSuccessOnly. intros ->. cbn. split; [lia | constructor].
Qed.

Lemma rateResults_report_success (env : Env) (v : JsVal) :
  isRateResults env v -> reportsSuccess (jsonOf v).
Proof.
  intros (t & analysis & rateData & summary & ->).
  destruct analysis, rateData; reflexivity.
Qed.

(** The [try] block writes nothing unless the rates were extracted, and
    then one document that reports success. *)
Lemma try_writes_on_success_only (env : Env) :
  triple nothingWritten (extractMaerskRates_try env)
    (fun _ s => exists d, writtenDocuments (trace s) = [d] /\ reportsSuccess d)
    (fun _ => writtenOnSuccessOnly)
    (fun _ _ => False).
Proof.
  pose proof nothingWritten_benign as Hb.
  pose proof nothingWritten_carrier as Hc.
  pose proof nothingWritten_constructed as Hn.
  assert (HT : forall (e : JsError) s, nothingWritten s -> writtenOnSuccessOnly s)
    by (intros _; apply nothingWritten_onSuccessOnly).
  unfold extractMaerskRates_try.
  destruct (missingCredentials env); [apply triple_throw, (HT (mkError ""))|].
  destruct (negb _); [apply triple_throw, (HT (mkError ""))|].
  eapply triple_step; [apply sound_dateNow | exact HT |]. intros now _.
  eapply triple_step; [now apply sound_newMaerskCarrier | exact HT |]. intros _ _.
  eapply triple_step; [now apply sound_initBrowser | exact HT |]. intros _ _.
  eapply triple_step; [now apply sound_loginLoopFrom | exact HT |]. intros loginSuccess _.
  destruct (negb loginSuccess); [apply triple_throw, (HT (mkError ""))|].
  eapply triple_step; [now apply sound_pageUrl | exact HT |]. intros url _.
  eapply triple_step with (Q := fun _ => True); [| exact HT |].
  { destruct (negb _); [|now apply sound_ret].
    eapply sound_bind; [apply sound_getCarrier|]. intros c _.
    eapply sound_bind; [now apply sound_call|]. intros _ _.
    now apply sound_sleep. }
  intros _ _.
  eapply triple_step;
    [now apply (sound_call nothingWritten Hb CVerifyBookingPage) | exact HT |].
  intros pa _.
  destruct (_ && _)%bool; [|apply triple_throw, (HT (mkError ""))].
  eapply triple_step; [now apply sound_fillBookingForm | exact HT |]. intros fr _.
  destruct (canContinue fr); [|apply triple_throw, (HT (mkError ""))].
  eapply triple_step;
    [now apply (sound_call nothingWritten Hb CSubmitBookingForm) | exact HT |].
  intros sr _.
  destruct (submitSuccess sr); [|apply triple_throw, (HT (mkError ""))].
  eapply triple_step; [now apply sound_extractRates | exact HT |].
  intros rateResults Hr.
  pose proof (rateResults_report_success env rateResults Hr) as Hok.
  set (J1 := fun s : St => writtenDocuments (trace s) = [jsonOf rateResults]).
  eapply triple_bind with (N' := fun _ => J1).
  - intros s Hs. unfold call, emit, modifyState, bind, ret, throw.
    destruct (writeFile_outcome env resultsFile (jsonOf rateResults)) as [[]|we];
      cbn [fst snd post trace]; unfold J1, writtenOnSuccessOnly; cbn [trace];
      rewrite writtenDocuments_app, Hs; cbn; [reflexivity|].
    split; [lia | now constructor].
  - intros _.
    eapply triple_weaken with (P' := J1).
    + apply sound_triple with (Q := fun _ : JsVal => True).
      repeat (eapply sound_bind; [apply sound_prop|]; intros ? _).
      now apply sound_ret.
    + auto.
    + intros a s [Hs _]. exists (jsonOf rateResults). now split.
    + intros e s Hs. unfold J1 in Hs. unfold writtenOnSuccessOnly. rewrite Hs.
      cbn. split; [lia | now constructor].
    + auto.
Qed.

(** The error that leaves the [catch] block is the one it caught, unless
    writing the error document threw. *)
Lemma catch_throws (env : Env) (e0 : JsError) (s : St) :
  exists e, fst (extractMaerskRates_catch env e0 s) = Throws e
            /\ (e = e0 \/ exists doc, writeFile_outcome env resultsFile doc = Raises e).
Proof.
  unfold extractMaerskRates_catch, takeScreenshot, isoNow, dateNow, getCarrier,
    tryCatch, call, emit, modifyState, bind, getState, ret, throw.
  destruct s as [t [[url [|]]|]]; cbn;
    try destruct (takeScreenshot_outcome env _) as [[]|se]; cbn;
    match goal with
    | |- context [writeFile_outcome env ?f ?d] =>
        destruct (writeFile_outcome env f d) as [[]|we] eqn:E
    end; cbn; eexists; (split; [reflexivity|]);
    first [now left | right; eexists; exact E].
Qed.

Lemma closing_writes_nothing (env : Env) (b : bool) :
  writtenDocuments (closingEvents env b) = [].
Proof.
  unfold closingEvents. destruct b; [|reflexivity].
  now destruct (close_outcome env) as [[]|e].
Qed.

(** X21.  The results file tells how the run of [extractMaerskRates]
    ended.  When the run returns, exactly one document was handed to
    [writeFile] and it reports success.  When it throws, the last document
    handed to [writeFile] is the error document with the message of the
    error caught, at most one document (reporting success) was written
    before it, and the error thrown is the one caught unless
    [writeFile] itself threw it.  The run never ends the process. *)
Theorem result_file_matches_outcome (env : Env) :
  let run := extractMaerskRates env initial in
  let docs := writtenDocuments (trace (snd run)) in
  match fst run with
  | Normal _ => exists d, docs = [d] /\ reportsSuccess d
  | Throws e =>
      exists before e0 t,
        docs = (before ++ [errorResult (message e0) (toISOString env t)])%list
        /\ (List.length before <= 1)%nat
        /\ Forall reportsSuccess before
        /\ (e = e0 \/ exists doc, writeFile_outcome env resultsFile doc = Raises e)
  | Exits _ => False
  end.
Proof.
  cbn zeta.
  pose proof (try_writes_on_success_only env initial eq_refl) as Htry.
  assert (Hx : forall n,
             fst (tryCatch (extractMaerskRates_try env) (extractMaerskRates_catch env)
                    initial) <> Exits n).
  { assert (Hs : sound (fun _ => True) isPipelineResult
                   (tryCatch (extractMaerskRates_try env) (extractMaerskRates_catch env)))
      by (apply sound_try_catch; intros; exact I).
    now destruct (Hs initial I) as (_ & _ & Hx). }
  rewrite (run_shape env initial Hx). cbn [fst snd trace].
  rewrite writtenDocuments_app, closing_writes_nothing, app_nil_r.
  clear Hx. unfold tryCatch.
  destruct (extractMaerskRates_try env initial) as [[v|e0|n] s1];
    cbn [fst snd post] in *.
  - exact Htry.
  - destruct Htry as [Hlen Hall].
    destruct (catch_writes_error_document env e0 s1) as [t Hdoc].
    destruct (catch_throws env e0 s1) as (e & Hthrown & Hor).
    destruct (extractMaerskRates_catch env e0 s1) as [r s2].
    cbn [fst snd] in *. subst r.
    exists (writtenDocuments (trace s1)), e0, t.
    split; [exact Hdoc|]. split; [exact Hlen|]. split; [exact Hall | exact Hor].
  - destruct Htry.
Qed.

(** *** When [main.js] closes the browser *)

Lemma neverClosed_event (e : Event) (s : St) :
  isClose e = false -> neverClosed s ->
  neverClosed {| trace := trace s ++ [e]; carrier := carrier s |}.
Proof.
  unfold neverClosed. cbn [trace]. intros He Hs.
  rewrite count_app, Hs. unfold count. cbn. now rewrite He.
Qed.

Lemma neverClosed_benign (e : Event) (s : St) :
  benign e = true -> neverClosed s ->
  neverClosed {| trace := trace s ++ [e]; carrier := carrier s |}.
Proof. intros He. apply neverClosed_event. now apply benign_not_close. Qed.

Lemma neverClosed_leftOpen (s : St) : neverClosed s -> leftOpen s.
Proof.
  unfold neverClosed, leftOpen, count. intros Hs. rewrite Hs. split; [lia|].
  induction (trace s) as [|e t IH]; [reflexivity|].
  cbn in Hs |- *. destruct e as [[] []| | | |]; cbn in *; try discriminate; now apply IH.
Qed.

Lemma leftOpen_event (e : Event) (s : St) :
  isClose e = false -> leftOpen s ->
  leftOpen {| trace := trace s ++ [e]; carrier := carrier s |}.
Proof.
  unfold leftOpen. cbn [trace]. intros He [Hn Hr].
  rewrite count_app, existsb_app, Hr. unfold count in *. cbn. rewrite He. cbn.
  split; [lia|]. destruct e as [[] []| | | |]; cbn in *; congruence.
Qed.

Lemma sound_open_call {A} (c : Call) (o : Outcome A) :
  (forall b, isClose (EvCall c b) = false) ->
  sound neverClosed (fun _ => True) (call c o).
Proof.
  intros Hc s Hs. destruct o as [a|e]; cbn;
    (split; [now apply neverClosed_event | split; [intros; exact I | discriminate]]).
Qed.

Lemma sound_open_emit (e : Event) :
  isClose e = false -> sound neverClosed (fun _ => True) (emit e).
Proof.
  intros He s Hs. cbn.
  split; [now apply neverClosed_event | split; [intros; exact I | discriminate]].
Qed.

Lemma sound_open_logRates (items : list JsVal) :
  sound neverClosed (fun _ => True) (logRates items).
Proof.
  induction items as [|rate rest IH]; cbn [logRates].
  - now apply sound_ret.
  - repeat (eapply sound_bind; [apply sound_prop|]; intros _ _). exact IH.
Qed.

Lemma sound_open_main_rates (env : Env) :
  sound neverClosed (fun _ => True) (main_rates env).
Proof.
  unfold main_rates. apply sound_tryCatch; [|intros e; now apply sound_open_emit].
  eapply sound_bind; [now apply sound_open_call|]. intros rateResults _.
  eapply sound_bind; [apply sound_prop|]. intros _ _.
  eapply sound_bind; [apply sound_prop|]. intros detailed _.
  eapply sound_bind; [apply sound_prop|]. intros hasInfo _.
  eapply sound_bind with (P := fun _ => True); [|intros _ _; now apply sound_open_call].
  destruct (truthy hasInfo); [|now apply sound_open_emit].
  eapply sound_bind; [apply sound_prop|]. intros rates _.
  destruct rates; try apply sound_throw; try apply sound_open_logRates;
    (eapply sound_bind; [apply sound_prop|]); intros _ _; now apply sound_ret.
Qed.

Lemma sound_open_main_form (env : Env) (b : Booking.BookingDetails) :
  sound neverClosed (fun _ => True) (main_form env b).
Proof.
  unfold main_form. apply sound_tryCatch.
  - eapply sound_bind; [now apply sound_open_call|]. intros fr _.
    destruct (canContinue fr); [|now apply sound_ret].
    eapply sound_bind; [now apply sound_open_call|]. intros sr _.
    destruct (submitSuccess sr); [apply sound_open_main_rates | now apply sound_ret].
  - intros e. eapply sound_bind; [now apply sound_open_emit|]. intros _ _.
    now apply sound_open_call.
Qed.

(** The body of the outer [try]: a [close] happens last or not at all. *)
Lemma main_try_closes_last (env : Env) :
  triple neverClosed (main_try env)
    (fun _ s => (count isClose (trace s) <= 1)%nat)
    (fun _ => leftOpen)
    (fun n s => n = 1 /\ leftOpen s).
Proof.
  pose proof neverClosed_benign as Hb.
  assert (HT : forall (e : JsError) s, neverClosed s -> leftOpen s)
    by (intros _; apply neverClosed_leftOpen).
  assert (Hexit : forall text1 text2,
            triple neverClosed
              (emit (EvFail text1) ;; emit (EvFail text2) ;; processExit (A := unit) 1)
              (fun _ s => (count isClose (trace s) <= 1)%nat)
              (fun _ => leftOpen) (fun n s => n = 1 /\ leftOpen s)).
  { intros text1 text2.
    eapply triple_step; [now apply sound_open_emit | exact HT |]. intros _ _.
    eapply triple_step; [now apply sound_open_emit | exact HT |]. intros _ _.
    apply triple_exit. intros s Hs. split; [reflexivity | now apply neverClosed_leftOpen]. }
  unfold main_try.
  destruct (missingCredentials env); [apply Hexit|].
  destruct (negb _); [apply Hexit|].
  eapply triple_step; [apply sound_dateNow | exact HT |]. intros now _.
  eapply triple_step; [now apply sound_open_call | exact HT |]. intros _ _.
  eapply triple_step; [now apply sound_open_call | exact HT |]. intros _ _.
  eapply triple_step; [now apply sound_loginLoopFrom | exact HT |]. intros loginSuccess _.
  destruct (negb loginSuccess).
  { eapply triple_step; [now apply sound_open_emit | exact HT |]. intros _ _.
    apply triple_ret. intros s Hs. unfold neverClosed in Hs. rewrite Hs. lia. }
  eapply triple_step; [now apply sound_open_emit | exact HT |]. intros _ _.
  eapply triple_step; [now apply sound_open_call | exact HT |]. intros url _.
  eapply triple_step with (Q := fun _ => True); [| exact HT |].
  { destruct (negb _); [now apply sound_open_call | now apply sound_ret]. }
  intros _ _.
  eapply triple_step; [now apply sound_open_call | exact HT |]. intros pa _.
  eapply triple_step with (Q := fun _ => True); [| exact HT |].
  { destruct (_ && _)%bool; [apply sound_open_main_form|].
    eapply sound_bind; [now apply sound_open_emit|]. intros _ _.
    now apply sound_open_call. }
  intros _ _.
  eapply triple_step; [now apply sound_open_emit | exact HT |]. intros _ _.
  intros s Hs. unfold call, emit, modifyState, bind, ret, throw.
  unfold neverClosed in Hs.
  destruct (close_outcome env) as [[]|ce]; cbn [fst snd post trace].
  - rewrite count_app, Hs. cbn. lia.
  - pose proof (neverClosed_leftOpen s Hs) as [_ Hr].
    unfold leftOpen. cbn [trace]. rewrite count_app, existsb_app, Hs, Hr.
    cbn. split; [lia | reflexivity].
Qed.

(** X22.  [main.js] calls [close] at most once.  The script either
    returns or ends with code 1, and in the second case no [close] has
    returned: the [catch] block cannot reach the carrier, which is declared
    inside the [try] block, so a failed run leaves the browser open. *)
Theorem main_closes_only_after_a_complete_run (env : Env) :
  let run := main env initial in
  (count isClose (trace (snd run)) <= 1)%nat
  /\ (fst run = Normal tt
      \/ fst run = Exits 1 /\ existsb isReturnedClose (trace (snd run)) = false).
Proof.
  cbn zeta.
  assert (H : triple neverClosed (main env)
                (fun _ s => (count isClose (trace s) <= 1)%nat)
                (fun _ _ => False)
                (fun n s => n = 1 /\ leftOpen s)).
  { unfold main. eapply triple_tryCatch; [apply main_try_closes_last|].
    intros e s Hs. unfold main_catch, emit, modifyState, bind, processExit.
    cbn [fst snd post]. split; [reflexivity | now apply leftOpen_event]. }
  specialize (H initial eq_refl).
  destruct (main env initial) as [[[]|e|n] s1]; cbn [fst snd post] in *.
  - split; [exact H | now left].
  - destruct H.
  - destruct H as [-> [Hn Hr]]. split; [exact Hn | right; now split].
Qed.

(** X23.  When the two login attempts of [main.js] both return [false],
    the script logs the failure and returns: it ends with code 0, the
    failure line is the last thing it does, and the browser is left open,
    since the [return] skips the [close] at the end of the [try] block. *)
Theorem failed_login_leaves_the_browser_open (env : Env)
    (Hready : openaiReady env)
    (Hlogin : forall k, hybridLogin_outcome env k = Returns false) :
  let run := main env initial in
  fst run = Normal tt
  /\ exitCode (fst run) = 0
  /\ count isClose (trace (snd run)) = 0%nat
  /\ count isLoginAttempt (trace (snd run)) = maxLoginAttempts
  /\ sleeps (trace (snd run)) = []
  /\ exists before,
       trace (snd run)
       = (before ++ [EvWarn "OpenAI Computer Use sequential login returned false";
                     EvFail "All OpenAI Computer Use login attempts failed"])%list.
Proof.
  destruct Hready as (Hcred & Hkey & Hnew & Hinit).
  cbn zeta. unfold main, main_try, tryCatch.
  rewrite Hcred, Hkey. cbn [negb].
  unfold loginLoop, maxLoginAttempts. cbn [loginLoopFrom]. unfold loginAttempt.
  rewrite Hnew, Hinit, !Hlogin. cbn.
  repeat (split; [reflexivity|]).
  eexists [_; _; _; _; _]. reflexivity.
Qed.

Lemma failed_login_leaves_the_browser_open_witness :
  exitCode (fst (main (with_hybridLogin alwaysFalse cooperativeEnv) initial)) = 0
  /\ count isClose
       (trace (snd (main (with_hybridLogin alwaysFalse cooperativeEnv) initial)))
     = 0%nat.
Proof.
  pose proof (failed_login_leaves_the_browser_open
                (with_hybridLogin alwaysFalse cooperativeEnv)
                (conj eq_refl (conj eq_refl (conj eq_refl eq_refl)))
                (fun _ => eq_refl)) as H.
  cbn zeta in H. destruct H as (_ & H0 & Hc & _). split; [exact H0 | exact Hc].
Defined.

End PipelineRunFacts.
